(** * agv_server.py: bridge between an AGV guide sensor and a SocketIO server

    A shallow embedding of [src/agv_server.py].  The program talks to three
    external collaborators (pyserial's port enumeration, a minimalmodbus
    [Instrument] and a python-socketio [Client]) and to the [logging]
    module.  Every call to one of them is recorded in a trace, and its
    answer is taken from an environment that may depend on everything that
    happened before.  Python exceptions are an explicit [Raise] outcome. *)

From stdpp Require Import base strings list gmap sorting pretty.

(** ** Python exceptions and outcomes *)

(** The exception classes the program can meet.  [LibraryError cls] stands
    for any exception class of a library that derives from [Exception]
    (serial.SerialException, minimalmodbus.NoResponseError,
    socketio.exceptions.ConnectionError, ...). *)
Inductive exn :=
| IndexError
| AttributeError
| SystemExit (code : Z)
| KeyboardInterrupt
| LibraryError (cls : string).

(** [isinstance(e, Exception)]: SystemExit and KeyboardInterrupt derive from
    BaseException only, so [except Exception] lets them through. *)
Definition is_Exception (e : exn) : bool :=
  match e with
  | SystemExit _ | KeyboardInterrupt => false
  | IndexError | AttributeError | LibraryError _ => true
  end.

Inductive outcome (A : Type) :=
| Return (a : A)
| Raise (e : exn).
Arguments Return {A} a.
Arguments Raise {A} e.

(** ** External calls, the environment and the world *)

(** An entry of [serial.tools.list_ports.comports()]: [p[0]] is the device
    identifier and [p[1]] its description. *)
Abbreviation port_info := (string * string)%type.

Inductive call :=
| Comports
| MmInstrument (port : string) (slaveaddress : Z)
| SetBaudrate (port : string) (baudrate : Z)
| ReadRegister (port : string) (slaveaddress registeraddress : Z)
| SerialClose (port : string)
| SioClient
| SioConnect (url : string)
| SioOn (event : string)
| SioEmit (event : string) (data : gmap string Z)
| SioWait
| StdoutWrite (levelno : Z) (message : string).

(** A trace entry: the call and the exception it raised, if any. *)
Abbreviation entry := (call * option exn)%type.

(** The environment answers each call from the history of the run. *)
Record Env := {
  raises : list entry → call → option exn;
  comports : list entry → list port_info;
  registers : list entry → Z → Z;
}.

Record World := {
  env : Env;
  trace : list entry;
}.

(** ** The monad of Python statements: world passing with exceptions *)

Definition M (A : Type) : Type := World → outcome A * World.

Global Instance M_ret : MRet M := λ A a w, (Return a, w).
Global Instance M_bind : MBind M := λ A B f m w,
  match m w with
  | (Return a, w') => f a w'
  | (Raise e, w') => (Raise e, w')
  end.

Definition raise {A} (e : exn) : M A := λ w, (Raise e, w).

(** [try: body except <classes>: handler]; [handler e = None] when no
    except clause matches [e]. *)
Definition try_except {A} (body : M A) (handler : exn → option (M A)) : M A :=
  λ w,
    match body w with
    | (Return a, w') => (Return a, w')
    | (Raise e, w') =>
        match handler e with
        | Some h => h w'
        | None => (Raise e, w')
        end
    end.

(** One call to a collaborator: the environment decides whether it raises,
    and the call is appended to the trace with what it did. *)
Definition extcall (c : call) : M unit := λ w,
  let r := raises (env w) (trace w) c in
  let w' := {| env := env w; trace := trace w ++ [(c, r)] |} in
  match r with
  | None => (Return tt, w')
  | Some e => (Raise e, w')
  end.

(** A write that cannot fail: appended to the trace as done. *)
Definition record (c : call) : M unit := λ w,
  (Return tt, {| env := env w; trace := trace w ++ [(c, None)] |}).

(** The history as the next external call will see it. *)
Definition history : M (list entry) := λ w, (Return (trace w), w).
Definition environment : M Env := λ w, (Return (env w), w).

(** ** Python strings and lists *)

(** A [str] is embedded as its UTF-8 bytes: byte-wise comparison and
    substring search agree with Python's code-point ones. *)

(** [sub in s] *)
Fixpoint str_in (sub s : string) : bool :=
  String.prefix sub s ||
  match s with
  | EmptyString => false
  | String _ s' => str_in sub s'
  end.

(** [sorted(l)] on a list of strings: a stable sort by [<=]. *)
Definition sorted (l : list string) : list string := merge_sort String.le l.

(** [l[i]] for [i >= 0] *)
Definition getitem {A} (l : list A) (i : nat) : M A :=
  match l !! i with
  | Some x => mret x
  | None => raise IndexError
  end.

(** ** Logging *)

Definition INFO : Z := 20.
Definition WARNING : Z := 30.
Definition CRITICAL : Z := 50.

(** [log = logging.getLogger("agv_server")] never gets a level of its own,
    so its effective level is the root logger's default, WARNING.  Its only
    handler, [stdout_handler], was given level INFO.  A logging call does
    not raise: the module swallows the errors of its handlers. *)
Definition log_effective_level : Z := WARNING.
Definition stdout_handler_level : Z := INFO.

Definition log_at (levelno : Z) (message : string) : M unit :=
  if bool_decide (log_effective_level ≤ levelno)%Z
     && bool_decide (stdout_handler_level ≤ levelno)%Z
  then record (StdoutWrite levelno message)
  else mret tt.

Definition log_info : string → M unit := log_at INFO.
(** [Logger.fatal] is [Logger.critical]. *)
Definition log_fatal : string → M unit := log_at CRITICAL.

(** [exit(code)] raises SystemExit. *)
Definition exit {A} (code : Z) : M A := raise (SystemExit code).

(** ** find_serial_port (lines 18-34) *)

Definition list_ports_comports : M (list port_info) :=
  h ← history;
  e ← environment;
  extcall Comports;;
  mret (comports e h).

Definition find_serial_port : M (list string) :=
  ports ← list_ports_comports;
  let ports := (λ p, p.1) <$> filter (λ p, str_in " CP210" p.2) ports in
  let ports := sorted ports in
  mret ports.

(** ** class AGVGuideSensor (lines 36-58) *)

(** What the program sees of a [minimalmodbus.Instrument]: the port its
    serial connection is bound to, its slave address and the baud rate of
    its serial connection. *)
Record Instrument := {
  port : string;
  address : Z;
  serial_baudrate : Z;
}.

(** [mm.Instrument(port, slaveaddress)] opens the serial port; the library
    creates the connection at its own default of 19200 baud. *)
Definition mm_Instrument (port : string) (slaveaddress : Z) : M Instrument :=
  extcall (MmInstrument port slaveaddress);;
  mret {| port := port; address := slaveaddress; serial_baudrate := 19200 |}.

(** [inst.serial.baudrate = baudrate] *)
Definition set_serial_baudrate (inst : Instrument) (baudrate : Z) : M Instrument :=
  extcall (SetBaudrate (port inst) baudrate);;
  mret {| port := port inst; address := address inst;
          serial_baudrate := baudrate |}.

(** [inst.read_register(registeraddress)] *)
Definition read_register (inst : Instrument) (registeraddress : Z) : M Z :=
  h ← history;
  e ← environment;
  extcall (ReadRegister (port inst) (address inst) registeraddress);;
  mret (registers e h registeraddress).

(** [inst.serial.close()] *)
Definition serial_close (inst : Instrument) : M unit :=
  extcall (SerialClose (port inst)).

Module AGVGuideSensor.

(** The attribute [inst] is missing ([None]) on an object whose
    [__init__] raised before assigning it. *)
Record t := { inst : option Instrument }.

Definition getattr_inst (self : t) : M Instrument :=
  match inst self with
  | Some i => mret i
  | None => raise AttributeError
  end.

Definition __init__ (port : string) (modbus_id baudrate : option Z) : M t :=
  let modbus_id := match modbus_id with None => 1%Z | Some m => m end in
  let baudrate := match baudrate with None => 115200%Z | Some b => b end in
  log_info ("Sensor port " +:+ port +:+ " modbus_id " +:+ pretty modbus_id);;
  inst ← mm_Instrument port modbus_id;
  inst ← set_serial_baudrate inst baudrate;
  mret {| inst := Some inst |}.

Definition value (self : t) : M Z :=
  inst ← getattr_inst self;
  read_register inst 0x28%Z.

Definition __del__ (self : t) : M unit :=
  try_except
    (inst ← getattr_inst self; serial_close inst)
    (λ e, if is_Exception e then Some (mret tt) else None).

End AGVGuideSensor.

(** ** class AGVServer (lines 60-74) *)

Module AGVServer.

(** [sio_client] is the one transport client of the process; its calls
    are the [Sio...] entries of the trace. *)
Record t := {
  sensor : AGVGuideSensor.t;
  socketio_request_event_name : string;
}.

Definition __init__
    (socketio_server_url socketio_request_event_name serial_port : string) : M t :=
  sensor ← AGVGuideSensor.__init__ serial_port None None;
  extcall SioClient;;
  extcall (SioConnect socketio_server_url);;
  extcall (SioOn socketio_request_event_name);;
  mret {| sensor := sensor;
          socketio_request_event_name := socketio_request_event_name |}.

Definition sio_handler (self : t) : M unit :=
  v ← AGVGuideSensor.value (sensor self);
  let ret : gmap string Z := {[ "value" := v ]} in
  let event_name := socketio_request_event_name self +:+ "Response" in
  extcall (SioEmit event_name ret).

End AGVServer.

(** ** Configuration and main (lines 76-88) *)

Definition socketio_server_url : string := "http://localhost:8080".
Definition socketio_request_event_name : string := "AGVGuideSensor".

Definition main : M unit :=
  port ← try_except
            (ports ← find_serial_port; getitem ports 0)
            (λ e, match e with
                  | IndexError =>
                      Some (log_fatal "No serial ports detected. Exiting.";;
                            exit (-1))
                  | _ => None
                  end);
  server ← AGVServer.__init__ socketio_server_url socketio_request_event_name port;
  log_info "AGVServer init finished";;
  extcall SioWait.

(** The status the interpreter hands to a POSIX system when [main()] ends
    the program: 0 on return, the low byte of the SystemExit code, 1 for an
    uncaught exception. *)
Definition exit_status (r : outcome unit) : Z :=
  match r with
  | Return _ => 0
  | Raise (SystemExit code) => code `mod` 256
  | Raise _ => 1
  end.


(** ** Reading a trace *)

(** The response events handed to [sio_client.emit], in order. *)
Definition emits (tr : list entry) : list (string * gmap string Z) :=
  omap (λ ent : entry,
          match ent.1 with SioEmit ev data => Some (ev, data) | _ => None end) tr.

(** The register reads issued, in order: port, slave address, register. *)
Definition reads (tr : list entry) : list (string * Z * Z) :=
  omap (λ ent : entry,
          match ent.1 with ReadRegister p a r => Some (p, a, r) | _ => None end) tr.

(** The messages written by the logger, in order. *)
Definition logged (tr : list entry) : list (Z * string) :=
  omap (λ ent : entry,
          match ent.1 with StdoutWrite l m => Some (l, m) | _ => None end) tr.

(** The calls to [serial.close()], in order. *)
Definition closes (tr : list entry) : list string :=
  omap (λ ent : entry,
          match ent.1 with SerialClose p => Some p | _ => None end) tr.

(** The serial ports held open at the end of a trace: opened by a
    [mm.Instrument] that returned and not closed by a [close()] since. *)
Definition serial_open (tr : list entry) : list string :=
  foldl (λ acc (ent : entry),
           match ent with
           | (MmInstrument p _, None) => acc ++ [p]
           | (SerialClose p, None) => filter (λ q, q ≠ p) acc
           | _ => acc
           end) [] tr.

(** Whether the transport connection is up at the end of a trace: the
    program has no call that takes it down. *)
Definition sio_connected (tr : list entry) : bool :=
  foldl (λ b (ent : entry),
           match ent with
           | (SioConnect _, None) => true
           | _ => b
           end) false tr.

(** [n] calls of a method one after the other. *)
Fixpoint times (n : nat) (m : M unit) : M unit :=
  match n with
  | O => mret tt
  | S k => m;; times k m
  end.

(** ** One delivery of a request event, step by step

    The docstring of [sio_handler] has it run in a thread of its own.  To
    speak of several deliveries at once, one run of the handler is cut at
    the points where another thread can be scheduled: before the register
    read is issued, while it is in flight, and before the emit. *)

Inductive pc :=
| AtRead                 (* line 72, [self.sensor.value()] not yet called *)
| InRead (i : Instrument) (* inside [inst.read_register(0x28)] *)
| AtEmit (v : Z)         (* lines 73-74, the reading in hand *)
| Finished
| Crashed (e : exn).

Definition handler_step (self : AGVServer.t) (p : pc) (w : World) : pc * World :=
  match p with
  | AtRead =>
      match AGVGuideSensor.getattr_inst (AGVServer.sensor self) w with
      | (Return i, w') => (InRead i, w')
      | (Raise e, w') => (Crashed e, w')
      end
  | InRead i =>
      match read_register i 0x28%Z w with
      | (Return v, w') => (AtEmit v, w')
      | (Raise e, w') => (Crashed e, w')
      end
  | AtEmit v =>
      let ret : gmap string Z := {[ "value" := v ]} in
      let event_name := AGVServer.socketio_request_event_name self +:+ "Response" in
      match extcall (SioEmit event_name ret) w with
      | (Return _, w') => (Finished, w')
      | (Raise e, w') => (Crashed e, w')
      end
  | Finished | Crashed _ => (p, w)
  end.

Definition final (p : pc) : bool :=
  match p with
  | Finished | Crashed _ => true
  | _ => false
  end.

Definition in_read (p : pc) : bool :=
  match p with
  | InRead _ => true
  | _ => false
  end.

(** What a finished delivery amounts to as an outcome of the handler. *)
Definition pc_outcome (p : pc) : option (outcome unit) :=
  match p with
  | Finished => Some (Return tt)
  | Crashed e => Some (Raise e)
  | _ => None
  end.

(** Deliveries in progress: thread [tid] is at [threads !! tid]; [steps]
    lists the steps taken as (thread, where the step led). *)
Record system := {
  threads : list pc;
  world : World;
  steps : list (nat * pc);
}.

Definition system_step (self : AGVServer.t) (tid : nat) (s : system) : system :=
  match threads s !! tid with
  | Some p =>
      if final p then s
      else
        let '(p', w') := handler_step self p (world s) in
        {| threads := <[tid := p']> (threads s);
           world := w';
           steps := steps s ++ [(tid, p')] |}
  | None => s
  end.

(** A schedule names the thread that moves at each instant. *)
Definition run (self : AGVServer.t) (schedule : list nat) (s : system) : system :=
  foldl (λ s tid, system_step self tid s) s schedule.

(** [n] request events delivered at once. *)
Definition delivered (n : nat) (w : World) : system :=
  {| threads := replicate n AtRead; world := w; steps := [] |}.

Definition complete (s : system) : bool := forallb final (threads s).

(** The threads whose register read is in flight. *)
Definition in_flight (s : system) : list nat :=
  omap (λ x : nat * pc, if in_read x.2 then Some x.1 else None)
       (imap (λ tid p, (tid, p)) (threads s)).

(** How many times thread [tid] issued the register read. *)
Definition invocations (tid : nat) (s : system) : nat :=
  length (filter (λ x : nat * pc, x.1 = tid ∧ in_read x.2) (steps s)).

(** The calls that the step of thread [tid] adds to the trace of the
    world. *)
Definition step_calls (self : AGVServer.t) (tid : nat) (s : system) : list entry :=
  drop (length (trace (world s))) (trace (world (system_step self tid s))).

(** The calls made along a schedule, in order, each with the thread that
    made it. *)
Fixpoint tagged (self : AGVServer.t) (schedule : list nat) (s : system)
    : list (nat * entry) :=
  match schedule with
  | [] => []
  | tid :: rest =>
      ((λ ent, (tid, ent)) <$> step_calls self tid s)
      ++ tagged self rest (system_step self tid s)
  end.

(** The calls of thread [tid] among calls listed with their thread. *)
Definition calls_of (tid : nat) (tg : list (nat * entry)) : list entry :=
  (filter (λ x : nat * entry, x.1 = tid) tg).*2.

(** ** Vocabulary of the statements and example worlds *)

(** The identifiers [find_serial_port] keeps from an enumeration. *)
Definition candidates (ports : list port_info) : list string :=
  (λ p, p.1) <$> filter (λ p, str_in " CP210" p.2) ports.

(** A world in which the operating system lists [ports], every register
    reads [reading] and no call fails. *)
Definition quiet (ports : list port_info) (reading : Z) : World :=
  {| env := {| raises := λ _ _, None;
               comports := λ _, ports;
               registers := λ _ _, reading |};
     trace := [] |}.

(** The sensor handle and the service that [main] builds on port "COM1". *)
Definition handle : AGVGuideSensor.t :=
  {| AGVGuideSensor.inst :=
       Some {| port := "COM1"; address := 1; serial_baudrate := 115200 |} |}.

Definition bridge : AGVServer.t :=
  {| AGVServer.sensor := handle;
     AGVServer.socketio_request_event_name := socketio_request_event_name |}.

(** A world whose first register read times out; every later read answers
    [0x1234]. *)
Definition first_read_fails : World :=
  {| env := {| raises := λ h c,
                 match c with
                 | ReadRegister _ _ _ =>
                     if bool_decide (reads h = [])
                     then Some (LibraryError "NoResponseError") else None
                 | _ => None
                 end;
               comports := λ _, [];
               registers := λ _ _, 0x1234%Z |};
     trace := [] |}.

(** A world whose SocketIO server refuses the connection. *)
Definition connect_refused : World :=
  {| env := {| raises := λ _ c,
                 match c with
                 | SioConnect _ => Some (LibraryError "ConnectionError")
                 | _ => None
                 end;
               comports := λ _, [("COM1", "Silicon Labs CP210x")];
               registers := λ _ _, 0%Z |};
     trace := [] |}.

(** A world in which closing the serial connection always fails. *)
Definition close_fails : World :=
  {| env := {| raises := λ _ c,
                 match c with
                 | SerialClose _ => Some (LibraryError "SerialException")
                 | _ => None
                 end;
               comports := λ _, [];
               registers := λ _ _, 0%Z |};
     trace := [] |}.

(** The calls by which [AGVServer.__init__] acquires its resources. *)
Definition is_construction (c : call) : bool :=
  match c with
  | MmInstrument _ _ | SetBaudrate _ _ | SioClient | SioConnect _ | SioOn _ => true
  | _ => false
  end.

Definition construction_calls (tr : list entry) : list call :=
  filter (λ c, is_construction c) tr.*1.

(** The link parameters a construction call passes on: [mm.Instrument] is
    given port [p] and sub-address 1, the baud rate is set to 115200. *)
Definition default_link (p : string) (c : call) : Prop :=
  match c with
  | MmInstrument q a => q = p ∧ a = 1%Z
  | SetBaudrate q b => q = p ∧ b = 115200%Z
  | _ => True
  end.

(** Each thread has issued the register read once, unless it has not
    begun. *)
Definition read_once (s : system) : Prop :=
  ∀ tid p, threads s !! tid = Some p →
    invocations tid s = match p with AtRead => 0 | _ => 1 end.

(** The message of line 84. *)
Definition fatal_message : string := "No serial ports detected. Exiting.".

(** The calls a run of [sio_handler] may make for service [self] whose
    sensor holds instrument [i]. *)
Definition handler_call (self : AGVServer.t) (i : Instrument) (c : call) : Prop :=
  match c with
  | ReadRegister q a r => q = port i ∧ a = address i ∧ r = 0x28%Z
  | SioEmit ev data =>
      ev = AGVServer.socketio_request_event_name self +:+ "Response"
      ∧ ∃ v : Z, data = {[ "value" := v ]}
  | _ => False
  end.

(** A delivery whose register read has returned or raised. *)
Definition past_read (p : pc) : bool :=
  match p with
  | AtRead | InRead _ => false
  | _ => true
  end.

(** A world in which no call fails and a register read answers the number
    of calls made so far. *)
Definition ticking : World :=
  {| env := {| raises := λ _ _, None;
               comports := λ _, [("COM1", "Silicon Labs CP210x")];
               registers := λ h _, Z.of_nat (length h) |};
     trace := [] |}.

(** What holds of the deliveries of requests to [self], begun in world
    [w0], at every instant: a read in flight is on the instrument of the
    service; the world has grown by reads and response emits only; the
    reads issued are those of the deliveries past their read; each emit is
    that of a delivery that has ended. *)
Definition serving (self : AGVServer.t) (i : Instrument) (w0 : World)
    (s : system) : Prop :=
  Forall (λ p, ∀ j, p = InRead j → j = i) (threads s)
  ∧ env (world s) = env w0
  ∧ (∃ delta, trace (world s) = trace w0 ++ delta
              ∧ Forall (λ ent : entry, handler_call self i ent.1) delta)
  ∧ length (reads (trace (world s)))
    = length (reads (trace w0)) + length (filter (λ p, past_read p) (threads s))
  ∧ length (emits (trace (world s)))
    ≤ length (emits (trace w0)) + length (filter (λ p, final p) (threads s)).

(** The calls on the transport client. *)
Definition is_transport (c : call) : bool :=
  match c with
  | SioClient | SioConnect _ | SioOn _ | SioEmit _ _ | SioWait => true
  | _ => false
  end.

(** * Properties *)

(** ** Strings and sorting *)

Lemma app_String (a : Ascii.ascii) (s t : string) :
  String a s +:+ t = String a (s +:+ t).
Proof. reflexivity. Qed.

Lemma prefix_app (s1 s2 : string) :
  String.prefix s1 s2 = true ↔ ∃ post, s2 = s1 +:+ post.
Proof.
  revert s2. induction s1 as [|a s1 IH]; intros [|b s2]; simpl.
  - split; eauto.
  - split; eauto.
  - split; [done|]. intros [post H]. discriminate H.
  - destruct (Ascii.ascii_dec a b) as [->|Hab].
    + rewrite IH. split; intros [post H]; exists post.
      * by rewrite app_String, H.
      * rewrite app_String in H. by injection H.
    + split; [done|]. intros [post H]. rewrite app_String in H.
      injection H as ? _. done.
Qed.

Lemma str_in_nil (sub : string) : str_in sub "" = String.prefix sub "".
Proof. unfold str_in. apply orb_false_r. Qed.

Lemma str_in_String (sub : string) (a : Ascii.ascii) (s : string) :
  str_in sub (String a s) = String.prefix sub (String a s) || str_in sub s.
Proof. reflexivity. Qed.

(** [str_in] is substring containment. *)
Lemma str_in_spec (sub s : string) :
  str_in sub s = true ↔ ∃ pre post, s = pre +:+ sub +:+ post.
Proof.
  induction s as [|a s IH].
  - rewrite str_in_nil, prefix_app. split.
    + intros [post H]. by exists "", post.
    + intros [pre [post H]]. destruct pre; [by exists post|discriminate H].
  - rewrite str_in_String, orb_true_iff, prefix_app, IH. split.
    + intros [[post H]|[pre [post H]]].
      * by exists "", post.
      * exists (String a pre), post. by rewrite H.
    + intros [pre [post H]]. destruct pre as [|b pre].
      * left. by exists post.
      * right. exists pre, post. rewrite app_String in H. by injection H.
Qed.

Lemma sorted_Sorted (l : list string) : Sorted String.le (sorted l).
Proof. apply (Sorted_merge_sort String.le). Qed.

Lemma sorted_Permutation (l : list string) : sorted l ≡ₚ l.
Proof. apply (merge_sort_Permutation String.le). Qed.

(** Whatever the sorting algorithm, the sorted list is the one of [sorted]. *)
Lemma sorted_unique (l l' : list string) :
  Sorted String.le l' → l' ≡ₚ l → l' = sorted l.
Proof.
  intros Hs Hp. apply (Sorted_unique String.le); [done|apply sorted_Sorted|].
  by rewrite sorted_Permutation.
Qed.

Lemma sorted_perm_eq (l1 l2 : list string) : l1 ≡ₚ l2 → sorted l1 = sorted l2.
Proof.
  intros Hp. apply sorted_unique; [apply sorted_Sorted|].
  by rewrite sorted_Permutation.
Qed.

(** ** find_serial_port *)

Ltac run_M :=
  unfold mbind, M_bind, mret, M_ret, history, environment, extcall, record,
    raise; simpl.

Lemma find_serial_port_run (w : World) :
  find_serial_port w =
  let r := raises (env w) (trace w) Comports in
  let w' := {| env := env w; trace := trace w ++ [(Comports, r)] |} in
  match r with
  | None => (Return (sorted (candidates (comports (env w) (trace w)))), w')
  | Some e => (Raise e, w')
  end.
Proof.
  unfold find_serial_port, list_ports_comports, candidates. run_M.
  by destruct (raises (env w) (trace w) Comports).
Qed.

Lemma elem_of_candidates (ports : list port_info) (id : string) :
  id ∈ candidates ports ↔
  ∃ desc pre post, (id, desc) ∈ ports ∧ desc = pre +:+ " CP210" +:+ post.
Proof.
  unfold candidates. rewrite list_elem_of_fmap. split.
  - intros [[i d] [-> Hin]]. apply list_elem_of_filter in Hin as [Hm Hin].
    simpl in *. apply Is_true_true, str_in_spec in Hm as (pre & post & ->).
    by exists (pre +:+ " CP210" +:+ post), pre, post.
  - intros (desc & pre & post & Hin & ->).
    exists (id, pre +:+ " CP210" +:+ post). split; [done|].
    apply list_elem_of_filter. split; [|done].
    apply Is_true_true, str_in_spec. by exists pre, post.
Qed.

Lemma candidates_Permutation (ports1 ports2 : list port_info) :
  ports1 ≡ₚ ports2 → candidates ports1 ≡ₚ candidates ports2.
Proof. intros Hp. unfold candidates. by rewrite Hp. Qed.

(** C1 as the specification words it: on the specification's own example
    the locator returns no identifier at all, because the marker of line 32
    begins with a space and neither "CP210x" nor "CP2102" holds one. *)
Lemma find_serial_port_spec_example_fails :
  (find_serial_port
     (quiet [("COM3", "X"); ("COM1", "CP210x"); ("COM2", "CP2102")] 0)).1
  ≠ Return ["COM1"; "COM2"].
Proof. vm_compute. discriminate. Qed.

(** C1 (amended): when the enumeration returns [ports], [find_serial_port]
    returns exactly the identifiers whose descriptor contains the marker
    " CP210" (a space, then CP210), each as often as it is listed, in
    ascending order; this is the only sorted arrangement of them.  On the
    specification's example it returns the empty list, and with descriptors
    that hold the marker it returns ["COM1"; "COM2"]. *)
Theorem find_serial_port_filters_and_sorts :
  (∀ (w : World) (ports : list port_info),
     raises (env w) (trace w) Comports = None →
     comports (env w) (trace w) = ports →
     ∃ ids,
       (find_serial_port w).1 = Return ids
       ∧ Sorted String.le ids
       ∧ ids ≡ₚ candidates ports
       ∧ (∀ id, id ∈ ids ↔
                ∃ desc pre post,
                  (id, desc) ∈ ports ∧ desc = pre +:+ " CP210" +:+ post)
       ∧ (∀ l, Sorted String.le l → l ≡ₚ candidates ports → l = ids))
  ∧ (find_serial_port
       (quiet [("COM3", "X"); ("COM1", "CP210x"); ("COM2", "CP2102")] 0)).1
    = Return []
  ∧ (find_serial_port
       (quiet [("COM3", "X"); ("COM2", "Silicon Labs CP210x USB to UART Bridge");
               ("COM1", "USB CP2102")] 0)).1
    = Return ["COM1"; "COM2"].
Proof.
  split; [|split; reflexivity].
  intros w ports Hok <-. rewrite find_serial_port_run, Hok. simpl.
  eexists. split; [reflexivity|]. split; [apply sorted_Sorted|].
  split; [apply sorted_Permutation|]. split.
  - intros id. rewrite <- elem_of_candidates.
    by rewrite (sorted_Permutation (candidates _)).
  - intros l Hs Hp. by apply sorted_unique.
Qed.

Lemma find_serial_port_filters_and_sorts_witness :
  ∃ ids,
    (find_serial_port
       (quiet [("COM9", "Prolific"); ("COM4", "Silicon Labs CP210x");
               ("COM2", "Silicon Labs CP210x")] 0)).1 = Return ids
    ∧ ids = ["COM2"; "COM4"].
Proof.
  destruct (proj1 find_serial_port_filters_and_sorts
              (quiet [("COM9", "Prolific"); ("COM4", "Silicon Labs CP210x");
                      ("COM2", "Silicon Labs CP210x")] 0)
              [("COM9", "Prolific"); ("COM4", "Silicon Labs CP210x");
               ("COM2", "Silicon Labs CP210x")]
              eq_refl eq_refl) as (ids & Hrun & _).
  exists ids. split; [exact Hrun|].
  vm_compute in Hrun. by injection Hrun.
Defined.

(** C9: two invocations of the locator give the same list whenever the two
    enumerations hold the same entries, in whatever order the operating
    system lists them (and whatever happened before each call). *)
Theorem find_serial_port_deterministic (w1 w2 : World) :
  raises (env w1) (trace w1) Comports = raises (env w2) (trace w2) Comports →
  comports (env w1) (trace w1) ≡ₚ comports (env w2) (trace w2) →
  (find_serial_port w1).1 = (find_serial_port w2).1.
Proof.
  intros Hr Hp. rewrite !find_serial_port_run, Hr.
  destruct (raises (env w2) (trace w2) Comports); simpl; [done|].
  f_equal. by apply sorted_perm_eq, candidates_Permutation.
Qed.

Lemma find_serial_port_deterministic_witness :
  (find_serial_port
     (quiet [("COM4", "Silicon Labs CP210x"); ("COM2", "Silicon Labs CP210x")] 0)).1
  = (find_serial_port
       (quiet [("COM2", "Silicon Labs CP210x"); ("COM4", "Silicon Labs CP210x")] 7)).1.
Proof.
  apply find_serial_port_deterministic.
  - reflexivity.
  - simpl. apply perm_swap.
Defined.

(** ** The sensor handle *)

Lemma value_run (self : AGVGuideSensor.t) (i : Instrument) (w : World) :
  AGVGuideSensor.inst self = Some i →
  AGVGuideSensor.value self w =
  let r := raises (env w) (trace w) (ReadRegister (port i) (address i) 0x28) in
  let w' := {| env := env w;
               trace := trace w ++ [(ReadRegister (port i) (address i) 0x28, r)] |} in
  match r with
  | None => (Return (registers (env w) (trace w) 0x28), w')
  | Some e => (Raise e, w')
  end.
Proof.
  intros Hi. unfold AGVGuideSensor.value, AGVGuideSensor.getattr_inst, read_register.
  rewrite Hi. run_M.
  by destruct (raises (env w) (trace w) _).
Qed.

Lemma value_no_inst (self : AGVGuideSensor.t) (w : World) :
  AGVGuideSensor.inst self = None →
  AGVGuideSensor.value self w = (Raise AttributeError, w).
Proof.
  intros Hi. unfold AGVGuideSensor.value, AGVGuideSensor.getattr_inst.
  by rewrite Hi.
Qed.

(** A read touches neither the environment nor the response events nor the
    log, whatever its outcome. *)
Lemma value_frame (self : AGVGuideSensor.t) (w : World) :
  env (AGVGuideSensor.value self w).2 = env w
  ∧ emits (trace (AGVGuideSensor.value self w).2) = emits (trace w)
  ∧ logged (trace (AGVGuideSensor.value self w).2) = logged (trace w).
Proof.
  destruct (AGVGuideSensor.inst self) as [i|] eqn:Hi.
  - rewrite (value_run self i w Hi). simpl.
    destruct (raises (env w) (trace w) _); simpl;
      unfold emits, logged; rewrite !omap_app; simpl; by rewrite !app_nil_r.
  - by rewrite (value_no_inst self w Hi).
Qed.

Lemma sio_handler_run (self : AGVServer.t) (w : World) :
  AGVServer.sio_handler self w =
  match AGVGuideSensor.value (AGVServer.sensor self) w with
  | (Return v, w1) =>
      extcall (SioEmit (AGVServer.socketio_request_event_name self +:+ "Response")
                       {[ "value" := v ]}) w1
  | (Raise e, w1) => (Raise e, w1)
  end.
Proof. reflexivity. Qed.

(** ** The request handler *)

Lemma sio_handler_emits (self : AGVServer.t) (w w1 : World) (v : Z) :
  AGVGuideSensor.value (AGVServer.sensor self) w = (Return v, w1) →
  emits (trace (AGVServer.sio_handler self w).2)
  = emits (trace w) ++
    [(AGVServer.socketio_request_event_name self +:+ "Response",
      {[ "value" := v ]})].
Proof.
  intros Hv. rewrite sio_handler_run, Hv.
  destruct (value_frame (AGVServer.sensor self) w) as (_ & Hemits & _).
  rewrite Hv in Hemits. simpl in Hemits.
  unfold extcall. destruct (raises (env w1) (trace w1) _); simpl;
    unfold emits in *; by rewrite omap_app, Hemits.
Qed.

(** C2: when the sensor read of a request returns the reading [v], the
    handler hands exactly one event to the transport, named after the
    request event with "Response" appended and carrying the payload
    [{"value": v}]; the handler returns normally unless the transport
    itself rejects the emit. *)
Theorem sio_handler_success (self : AGVServer.t) (w w1 : World) (v : Z) :
  AGVGuideSensor.value (AGVServer.sensor self) w = (Return v, w1) →
  let event_name := AGVServer.socketio_request_event_name self +:+ "Response" in
  let ret : gmap string Z := {[ "value" := v ]} in
  ∃ r,
    trace (AGVServer.sio_handler self w).2
    = trace w1 ++ [(SioEmit event_name ret, r)]
    ∧ emits (trace (AGVServer.sio_handler self w).2)
      = emits (trace w) ++ [(event_name, ret)]
    ∧ (AGVServer.sio_handler self w).1
      = match r with None => Return tt | Some e => Raise e end.
Proof.
  intros Hv event_name ret.
  exists (raises (env w1) (trace w1) (SioEmit event_name ret)).
  split; [|split; [by apply (sio_handler_emits self w w1 v)|]].
  - rewrite sio_handler_run, Hv. unfold extcall. fold event_name ret.
    by destruct (raises (env w1) (trace w1) _).
  - rewrite sio_handler_run, Hv. unfold extcall. fold event_name ret.
    by destruct (raises (env w1) (trace w1) _).
Qed.

Lemma sio_handler_success_witness :
  emits (trace (AGVServer.sio_handler bridge (quiet [] 0x1234)).2)
  = [("AGVGuideSensorResponse", {[ "value" := 4660%Z ]})].
Proof.
  destruct (sio_handler_success bridge (quiet [] 0x1234)
              (AGVGuideSensor.value handle (quiet [] 0x1234)).2 4660 eq_refl)
    as (r & _ & Hemits & _).
  exact Hemits.
Defined.

(** C4 as the specification words it: on a failed read the handler neither
    contains the error nor logs it.  The exception leaves [sio_handler] and
    nothing is written to the log. *)
Lemma sio_handler_read_error_escapes :
  (AGVGuideSensor.value (AGVServer.sensor bridge) first_read_fails).1
  = Raise (LibraryError "NoResponseError")
  ∧ (AGVServer.sio_handler bridge first_read_fails).1
    = Raise (LibraryError "NoResponseError")
  ∧ logged (trace (AGVServer.sio_handler bridge first_read_fails).2) = [].
Proof. vm_compute. done. Qed.

(** C4 (amended): when the sensor read of a request raises, the handler
    emits no response event for it and leaves by that same exception,
    uncaught and unlogged by the handler (it counts on running in a thread
    of its own); the service object is as before, so that the next request
    whose read succeeds gets its response. *)
Theorem sio_handler_read_error (self : AGVServer.t) (w w1 : World) (e : exn) :
  AGVGuideSensor.value (AGVServer.sensor self) w = (Raise e, w1) →
  AGVServer.sio_handler self w = (Raise e, w1)
  ∧ emits (trace w1) = emits (trace w)
  ∧ logged (trace w1) = logged (trace w)
  ∧ (∀ (v : Z) (w2 : World),
       AGVGuideSensor.value (AGVServer.sensor self) w1 = (Return v, w2) →
       emits (trace (AGVServer.sio_handler self w1).2)
       = emits (trace w1) ++
         [(AGVServer.socketio_request_event_name self +:+ "Response",
           {[ "value" := v ]})]).
Proof.
  intros Hv. rewrite sio_handler_run, Hv.
  destruct (value_frame (AGVServer.sensor self) w) as (_ & Hemits & Hlog).
  rewrite Hv in Hemits, Hlog. simpl in *.
  repeat split; try done.
  intros v w2 Hv2. by apply (sio_handler_emits self w1 w2 v).
Qed.

Lemma sio_handler_read_error_witness :
  AGVServer.sio_handler bridge first_read_fails
  = (Raise (LibraryError "NoResponseError"),
     (AGVGuideSensor.value handle first_read_fails).2)
  ∧ emits (trace (AGVServer.sio_handler bridge
                    (AGVGuideSensor.value handle first_read_fails).2).2)
    = [("AGVGuideSensorResponse", {[ "value" := 4660%Z ]})].
Proof.
  destruct (sio_handler_read_error bridge first_read_fails
              (AGVGuideSensor.value handle first_read_fails).2
              (LibraryError "NoResponseError") eq_refl)
    as (Hrun & _ & _ & Hnext).
  split; [exact Hrun|].
  exact (Hnext 4660%Z
           (AGVGuideSensor.value handle
              (AGVGuideSensor.value handle first_read_fails).2).2 eq_refl).
Defined.

(** ** Opening, reading and closing the handle *)

Lemma AGVGuideSensor_init_run (p : string) (modbus_id baudrate : option Z) (w : World) :
  let m := match modbus_id with None => 1%Z | Some m => m end in
  let b := match baudrate with None => 115200%Z | Some b => b end in
  let r1 := raises (env w) (trace w) (MmInstrument p m) in
  let t1 := trace w ++ [(MmInstrument p m, r1)] in
  let r2 := raises (env w) t1 (SetBaudrate p b) in
  let t2 := t1 ++ [(SetBaudrate p b, r2)] in
  AGVGuideSensor.__init__ p modbus_id baudrate w =
  match r1 with
  | Some e => (Raise e, {| env := env w; trace := t1 |})
  | None =>
      match r2 with
      | Some e => (Raise e, {| env := env w; trace := t2 |})
      | None =>
          (Return {| AGVGuideSensor.inst :=
                       Some {| port := p; address := m; serial_baudrate := b |} |},
           {| env := env w; trace := t2 |})
      end
  end.
Proof.
  unfold AGVGuideSensor.__init__, log_info, log_at, mm_Instrument,
    set_serial_baudrate. run_M.
  destruct (raises (env w) (trace w) _); [done|]. simpl.
  by destruct (raises (env w) _ _).
Qed.

(** C8: opened without a sub-address or a baud rate, the handle is opened
    as with sub-address 1 and 115200 baud; its [value] issues one register
    read, at register 0x28 of that port and sub-address, and returns what
    the read answered unchanged, hence a 16-bit unsigned integer whenever
    the Modbus library answers one. *)
Theorem AGVGuideSensor_defaults_and_value (p : string) (w : World) :
  AGVGuideSensor.__init__ p None None w
  = AGVGuideSensor.__init__ p (Some 1%Z) (Some 115200%Z) w
  ∧ (∀ self w',
       AGVGuideSensor.__init__ p None None w = (Return self, w') →
       AGVGuideSensor.inst self
       = Some {| port := p; address := 1; serial_baudrate := 115200 |}
       ∧ ∃ h, trace w' = h ++ [(MmInstrument p 1, None);
                                (SetBaudrate p 115200, None)])
  ∧ (∀ self i,
       AGVGuideSensor.inst self = Some i →
       ∃ r,
         trace (AGVGuideSensor.value self w).2
         = trace w ++ [(ReadRegister (port i) (address i) 0x28, r)]
         ∧ (AGVGuideSensor.value self w).1
           = match r with
             | None => Return (registers (env w) (trace w) 0x28)
             | Some e => Raise e
             end)
  ∧ (∀ self v,
       (0 ≤ registers (env w) (trace w) 0x28 < 2 ^ 16)%Z →
       (AGVGuideSensor.value self w).1 = Return v →
       (0 ≤ v < 2 ^ 16)%Z).
Proof.
  split; [reflexivity|]. split; [|split].
  - intros self w'. rewrite AGVGuideSensor_init_run. simpl.
    destruct (raises (env w) (trace w) _); [done|].
    destruct (raises (env w) _ _); [done|].
    intros [= <- <-]. split; [done|]. simpl.
    exists (trace w). by rewrite <- app_assoc.
  - intros self i Hi. rewrite (value_run self i w Hi). simpl.
    exists (raises (env w) (trace w) (ReadRegister (port i) (address i) 0x28)).
    by destruct (raises (env w) (trace w) _).
  - intros self v Hrange.
    destruct (AGVGuideSensor.inst self) as [i|] eqn:Hi.
    + rewrite (value_run self i w Hi). simpl.
      destruct (raises (env w) (trace w) _); [done|].
      by intros [= <-].
    + by rewrite (value_no_inst self w Hi).
Qed.

Lemma AGVGuideSensor_defaults_and_value_witness :
  AGVGuideSensor.inst (match (AGVGuideSensor.__init__ "COM1" None None (quiet [] 0x1234)).1 with
                       | Return self => self
                       | Raise _ => {| AGVGuideSensor.inst := None |}
                       end)
  = Some {| port := "COM1"; address := 1; serial_baudrate := 115200 |}
  ∧ (AGVGuideSensor.value handle (quiet [] 0x1234)).1 = Return 4660%Z
  ∧ (0 ≤ 4660 < 2 ^ 16)%Z.
Proof.
  destruct (AGVGuideSensor_defaults_and_value "COM1" (quiet [] 0x1234))
    as (_ & Hopen & Hread & Hrange).
  split; [|split].
  - exact (proj1 (Hopen handle
                    (AGVGuideSensor.__init__ "COM1" None None (quiet [] 0x1234)).2
                    eq_refl)).
  - destruct (Hread handle _ eq_refl) as (r & _ & Hv). reflexivity.
  - apply (Hrange handle 4660%Z); [simpl; lia|reflexivity].
Defined.

Lemma del_run (self : AGVGuideSensor.t) (w : World) :
  AGVGuideSensor.__del__ self w =
  match AGVGuideSensor.inst self with
  | None => (Return tt, w)
  | Some i =>
      let r := raises (env w) (trace w) (SerialClose (port i)) in
      let w' := {| env := env w; trace := trace w ++ [(SerialClose (port i), r)] |} in
      match r with
      | None => (Return tt, w')
      | Some e => if is_Exception e then (Return tt, w') else (Raise e, w')
      end
  end.
Proof.
  unfold AGVGuideSensor.__del__, AGVGuideSensor.getattr_inst, try_except,
    serial_close.
  destruct (AGVGuideSensor.inst self) as [i|]; run_M; [|done].
  destruct (raises (env w) (trace w) _) as [e|]; [|done].
  by destruct (is_Exception e).
Qed.

(** C7: [__del__] can be called any number of times on a handle in any
    state (an open connection, a closed one, or no [inst] attribute at
    all) and never raises, whatever error (an instance of [Exception])
    closing the underlying connection meets. *)
Theorem del_never_raises (n : nat) (self : AGVGuideSensor.t) (w : World) :
  (∀ h p e, raises (env w) h (SerialClose p) = Some e → is_Exception e = true) →
  (times n (AGVGuideSensor.__del__ self) w).1 = Return tt.
Proof.
  revert w. induction n as [|n IH]; intros w Herr; [done|].
  simpl. unfold mbind, M_bind. rewrite del_run.
  destruct (AGVGuideSensor.inst self) as [i|]; [|by apply IH].
  simpl. destruct (raises (env w) (trace w) _) as [e|] eqn:Hr.
  - rewrite (Herr _ _ _ Hr). by apply IH.
  - by apply IH.
Qed.

Lemma del_never_raises_witness :
  (times 2 (AGVGuideSensor.__del__ handle) close_fails).1 = Return tt
  ∧ closes (trace (times 2 (AGVGuideSensor.__del__ handle) close_fails).2)
    = ["COM1"; "COM1"].
Proof.
  split; [|reflexivity].
  apply (del_never_raises 2 handle close_fails).
  intros h p e. simpl. by intros [= <-].
Defined.

(** ** main *)

(** C5: when the locator returns no candidate, [main] logs the fatal
    message and ends the process by SystemExit(-1), a non-zero exit status,
    without a single call of the construction of the service. *)
Theorem main_no_serial_port (w w1 : World) :
  find_serial_port w = (Return [], w1) →
  main w
  = (Raise (SystemExit (-1)),
     {| env := env w;
        trace := trace w ++
                 [(Comports, None);
                  (StdoutWrite CRITICAL "No serial ports detected. Exiting.", None)] |})
  ∧ logged (trace (main w).2)
    = logged (trace w) ++ [(CRITICAL, "No serial ports detected. Exiting.")]
  ∧ construction_calls (trace (main w).2) = construction_calls (trace w)
  ∧ exit_status (main w).1 = 255%Z
  ∧ exit_status (main w).1 ≠ 0%Z.
Proof.
  intros Hfind.
  assert (main w
          = (Raise (SystemExit (-1)),
             {| env := env w;
                trace := trace w ++
                  [(Comports, None);
                   (StdoutWrite CRITICAL "No serial ports detected. Exiting.", None)] |}))
    as Hmain.
  { unfold main, try_except, mbind, M_bind. rewrite Hfind. simpl.
    rewrite find_serial_port_run in Hfind. simpl in Hfind.
    destruct (raises (env w) (trace w) Comports); [done|].
    injection Hfind as _ <-. simpl. by rewrite <- app_assoc. }
  rewrite Hmain. simpl. split; [done|].
  unfold logged, construction_calls.
  rewrite omap_app, fmap_app, filter_app. simpl.
  rewrite app_nil_r. done.
Qed.

Lemma main_no_serial_port_witness :
  find_serial_port (quiet [("COM3", "X")] 0)
  = (Return [], (find_serial_port (quiet [("COM3", "X")] 0)).2)
  ∧ (main (quiet [("COM3", "X")] 0)).1 = Raise (SystemExit (-1))
  ∧ trace (main (quiet [("COM3", "X")] 0)).2
    = [(Comports, None);
       (StdoutWrite 50 "No serial ports detected. Exiting.", None)].
Proof.
  split; [reflexivity|].
  destruct (main_no_serial_port (quiet [("COM3", "X")] 0)
              (find_serial_port (quiet [("COM3", "X")] 0)).2 eq_refl)
    as (Hmain & _).
  rewrite Hmain. split; reflexivity.
Defined.

(** ** Construction of the service *)

Lemma AGVServer_init_run (url ev p : string) (w : World) :
  let e0 := env w in
  let r1 := raises e0 (trace w) (MmInstrument p 1) in
  let t1 := trace w ++ [(MmInstrument p 1, r1)] in
  let r2 := raises e0 t1 (SetBaudrate p 115200) in
  let t2 := t1 ++ [(SetBaudrate p 115200, r2)] in
  let r3 := raises e0 t2 SioClient in
  let t3 := t2 ++ [(SioClient, r3)] in
  let r4 := raises e0 t3 (SioConnect url) in
  let t4 := t3 ++ [(SioConnect url, r4)] in
  let r5 := raises e0 t4 (SioOn ev) in
  let t5 := t4 ++ [(SioOn ev, r5)] in
  AGVServer.__init__ url ev p w =
  match r1, r2, r3, r4, r5 with
  | Some e, _, _, _, _ => (Raise e, {| env := e0; trace := t1 |})
  | None, Some e, _, _, _ => (Raise e, {| env := e0; trace := t2 |})
  | None, None, Some e, _, _ => (Raise e, {| env := e0; trace := t3 |})
  | None, None, None, Some e, _ => (Raise e, {| env := e0; trace := t4 |})
  | None, None, None, None, Some e => (Raise e, {| env := e0; trace := t5 |})
  | None, None, None, None, None =>
      (Return {| AGVServer.sensor :=
                   {| AGVGuideSensor.inst :=
                        Some {| port := p; address := 1;
                                serial_baudrate := 115200 |} |};
                 AGVServer.socketio_request_event_name := ev |},
       {| env := e0; trace := t5 |})
  end.
Proof.
  unfold AGVServer.__init__. unfold mbind at 1. unfold M_bind.
  rewrite AGVGuideSensor_init_run. simpl.
  destruct (raises (env w) (trace w) _); [done|].
  destruct (raises (env w) (trace w ++ _) _); [done|].
  run_M.
  destruct (raises (env w) ((trace w ++ _) ++ _) _); [done|]. simpl.
  destruct (raises (env w) (((trace w ++ _) ++ _) ++ _) _); [done|]. simpl.
  by destruct (raises (env w) ((((trace w ++ _) ++ _) ++ _) ++ _) _).
Qed.

Lemma serial_open_app (tr delta : list entry) :
  serial_open (tr ++ delta)
  = foldl (λ acc (ent : entry),
             match ent with
             | (MmInstrument p _, None) => acc ++ [p]
             | (SerialClose p, None) => filter (λ q, q ≠ p) acc
             | _ => acc
             end) (serial_open tr) delta.
Proof. apply foldl_app. Qed.

Ltac init_cases w :=
  rewrite AGVServer_init_run; simpl;
  destruct (raises (env w) (trace w) _);
  [|destruct (raises (env w) (trace w ++ _) _);
    [|destruct (raises (env w) ((trace w ++ _) ++ _) _);
      [|destruct (raises (env w) (((trace w ++ _) ++ _) ++ _) _);
        [|destruct (raises (env w) ((((trace w ++ _) ++ _) ++ _) ++ _) _)]]]];
  simpl; rewrite <- ?app_assoc; simpl.

(** C6 as the specification words it: when the connection to the SocketIO
    server is refused, the constructor raises while the sensor handle it
    opened is still open; no close was called. *)
Lemma AGVServer_init_keeps_handle_open :
  (AGVServer.__init__ socketio_server_url socketio_request_event_name "COM1"
     connect_refused).1
  = Raise (LibraryError "ConnectionError")
  ∧ serial_open
      (trace (AGVServer.__init__ socketio_server_url socketio_request_event_name
                "COM1" connect_refused).2)
    = ["COM1"]
  ∧ closes
      (trace (AGVServer.__init__ socketio_server_url socketio_request_event_name
                "COM1" connect_refused).2)
    = [].
Proof. vm_compute. done. Qed.

(** C6 (amended): the constructor returns a service only when every
    sub-step (opening the sensor handle, setting its baud rate, creating
    and connecting the transport client, registering the handler)
    succeeded; when a sub-step fails, the constructor raises that
    sub-step's own exception right after the sub-steps that succeeded and
    returns no service.  It releases nothing itself: it never calls close,
    and a sensor handle opened before the failure is still open when the
    exception leaves the constructor (closing is left to [__del__]). *)
Theorem AGVServer_init_all_or_error (url ev p : string) (w : World) :
  let r := AGVServer.__init__ url ev p w in
  closes (trace r.2) = closes (trace w)
  ∧ match r.1 with
    | Return self =>
        trace r.2
        = trace w ++ [(MmInstrument p 1, None); (SetBaudrate p 115200, None);
                      (SioClient, None); (SioConnect url, None);
                      (SioOn ev, None)]
        ∧ AGVServer.socketio_request_event_name self = ev
        ∧ AGVGuideSensor.inst (AGVServer.sensor self)
          = Some {| port := p; address := 1; serial_baudrate := 115200 |}
    | Raise e =>
        ∃ pre c,
          trace r.2 = trace w ++ pre ++ [(c, Some e)]
          ∧ Forall (λ ent : entry, ent.2 = None) pre
          ∧ (pre ≠ [] → serial_open (trace r.2) = serial_open (trace w) ++ [p])
    end.
Proof.
  intros r. subst r. split.
  - init_cases w; unfold closes; rewrite omap_app; simpl; by rewrite app_nil_r.
  - init_cases w.
    + by exists [], (MmInstrument p 1).
    + exists [(MmInstrument p 1, None)], (SetBaudrate p 115200).
      split; [done|]. split; [by repeat constructor|].
      intros _. by rewrite serial_open_app.
    + exists [(MmInstrument p 1, None); (SetBaudrate p 115200, None)], SioClient.
      split; [done|]. split; [by repeat constructor|].
      intros _. by rewrite serial_open_app.
    + exists [(MmInstrument p 1, None); (SetBaudrate p 115200, None);
              (SioClient, None)], (SioConnect url).
      split; [done|]. split; [by repeat constructor|].
      intros _. by rewrite serial_open_app.
    + exists [(MmInstrument p 1, None); (SetBaudrate p 115200, None);
              (SioClient, None); (SioConnect url, None)], (SioOn ev).
      split; [done|]. split; [by repeat constructor|].
      intros _. by rewrite serial_open_app.
    + done.
Qed.

Lemma AGVServer_init_all_or_error_witness :
  ∃ pre c,
    trace (AGVServer.__init__ socketio_server_url socketio_request_event_name
             "COM1" connect_refused).2
    = pre ++ [(c, Some (LibraryError "ConnectionError"))]
    ∧ pre = [(MmInstrument "COM1" 1, None); (SetBaudrate "COM1" 115200, None);
             (SioClient, None)]
    ∧ serial_open
        (trace (AGVServer.__init__ socketio_server_url socketio_request_event_name
                  "COM1" connect_refused).2)
      = ["COM1"].
Proof.
  destruct (AGVServer_init_all_or_error socketio_server_url
              socketio_request_event_name "COM1" connect_refused)
    as (_ & pre & c & Htrace & _ & Hopen).
  exists pre, c. split; [exact Htrace|].
  assert (pre = [(MmInstrument "COM1" 1, None); (SetBaudrate "COM1" 115200, None);
                 (SioClient, None)]) as Hpre.
  { vm_compute in Htrace.
    destruct pre as [|? [|? [|? [|? pre]]]]; simplify_eq/=; try done.
    by destruct pre. }
  split; [exact Hpre|]. apply Hopen. by rewrite Hpre.
Defined.

(** C10: the constructor of the service opens its sensor handle on the
    serial port it was given with the defaults of [AGVGuideSensor]:
    whatever its three arguments and whatever the world, [mm.Instrument] is
    called with sub-address 1 and the baud rate is set to 115200, and the
    handle of a constructed service has exactly these.  The constructor has
    no argument for either. *)
Theorem AGVServer_init_default_link (url ev p : string) (w : World) :
  AGVServer.__init__ url ev p w
  = (sensor ← AGVGuideSensor.__init__ p (Some 1%Z) (Some 115200%Z);
     extcall SioClient;;
     extcall (SioConnect url);;
     extcall (SioOn ev);;
     mret {| AGVServer.sensor := sensor;
             AGVServer.socketio_request_event_name := ev |}) w
  ∧ (∃ delta,
       trace (AGVServer.__init__ url ev p w).2 = trace w ++ delta
       ∧ Forall (λ ent : entry, default_link p ent.1) delta)
  ∧ (∀ self,
       (AGVServer.__init__ url ev p w).1 = Return self →
       AGVGuideSensor.inst (AGVServer.sensor self)
       = Some {| port := p; address := 1; serial_baudrate := 115200 |}).
Proof.
  split; [reflexivity|]. split.
  - init_cases w; eexists; (split; [reflexivity|]); by repeat constructor.
  - intros self. init_cases w; try done. by intros [= <-].
Qed.

Lemma AGVServer_init_default_link_witness :
  AGVGuideSensor.inst
    (AGVServer.sensor
       (match (AGVServer.__init__ "http://10.0.0.2:9000" "Guide" "COM7"
                 (quiet [] 0)).1 with
        | Return self => self
        | Raise _ => bridge
        end))
  = Some {| port := "COM7"; address := 1; serial_baudrate := 115200 |}.
Proof.
  destruct (AGVServer_init_default_link "http://10.0.0.2:9000" "Guide" "COM7"
              (quiet [] 0)) as (_ & _ & Hself).
  exact (Hself _ eq_refl).
Defined.

(** ** Requests delivered at once *)

(** Run alone from start to end, the steps of a delivery are the handler. *)
Lemma run_alone (self : AGVServer.t) (w : World) :
  let s := run self [0; 0; 0] (delivered 1 w) in
  world s = (AGVServer.sio_handler self w).2
  ∧ pc_outcome <$> threads s = [Some (AGVServer.sio_handler self w).1].
Proof.
  unfold run, delivered, system_step, handler_step, AGVServer.sio_handler,
    AGVGuideSensor.value, AGVGuideSensor.getattr_inst, read_register.
  simpl. destruct (AGVGuideSensor.inst _) as [i|]; run_M; [|done].
  destruct (raises (env w) (trace w) _); simpl; [done|].
  by destruct (raises (env w) (trace w ++ _) _).
Qed.

Lemma invocations_snoc (tid tid' : nat) (p : pc) (ths ths' : list pc)
    (w w' : World) (st : list (nat * pc)) :
  invocations tid {| threads := ths'; world := w'; steps := st ++ [(tid', p)] |}
  = invocations tid {| threads := ths; world := w; steps := st |}
    + (if bool_decide (tid' = tid) && in_read p then 1 else 0).
Proof.
  unfold invocations. simpl. rewrite filter_app, length_app. f_equal.
  rewrite filter_cons, filter_nil. simpl.
  destruct (decide (tid' = tid ∧ in_read p)) as [[-> Hr]|Hn].
  - by rewrite bool_decide_eq_true_2, (Is_true_true_1 _ Hr).
  - destruct (bool_decide_reflect (tid' = tid)) as [->|Hne]; [|done].
    destruct (in_read p); [|done]. destruct Hn. done.
Qed.

Lemma system_step_length (self : AGVServer.t) (tid : nat) (s : system) :
  length (threads (system_step self tid s)) = length (threads s).
Proof.
  unfold system_step. destruct (threads s !! tid) as [p|]; [|done].
  destruct (final p); [done|].
  destruct (handler_step self p (world s)). simpl. apply length_insert.
Qed.

Lemma system_step_read_once (self : AGVServer.t) (i : Instrument) (tid : nat)
    (s : system) :
  AGVGuideSensor.inst (AGVServer.sensor self) = Some i →
  read_once s → read_once (system_step self tid s).
Proof.
  intros Hi Hinv. unfold system_step.
  destruct (threads s !! tid) as [p|] eqn:Hp; [|done].
  destruct (final p) eqn:Hf; [done|].
  destruct (handler_step self p (world s)) as [p' w'] eqn:Hstep.
  pose proof (Hinv tid p Hp) as Hcount.
  assert (match p' with AtRead => False | _ => True end
          ∧ (if in_read p' then 1 else 0) + match p with AtRead => 0 | _ => 1 end
            = 1) as [Hp' Hsum].
  { destruct p; simpl in Hstep, Hf; try done.
    - unfold AGVGuideSensor.getattr_inst in Hstep. rewrite Hi in Hstep.
      by injection Hstep as <- _.
    - destruct (read_register _ _ _) as [[v|e] w1]; by injection Hstep as <- _.
    - destruct (extcall _ _) as [[v'|e] w1]; by injection Hstep as <- _. }
  intros tid' q Hq. simpl in Hq. destruct s as [ths w st]. simpl in *.
  rewrite (invocations_snoc _ _ _ ths _ w).
  destruct (decide (tid = tid')) as [<-|Hne].
  - rewrite list_lookup_insert_eq in Hq by by eapply lookup_lt_Some.
    injection Hq as <-. rewrite bool_decide_eq_true_2 by done. simpl.
    rewrite Hcount. destruct p'; try done; lia.
  - rewrite list_lookup_insert_ne in Hq by done.
    rewrite bool_decide_eq_false_2 by done. simpl.
    rewrite Nat.add_0_r. by apply Hinv.
Qed.

Lemma run_read_once (self : AGVServer.t) (i : Instrument) (schedule : list nat)
    (s : system) :
  AGVGuideSensor.inst (AGVServer.sensor self) = Some i →
  read_once s →
  read_once (run self schedule s)
  ∧ length (threads (run self schedule s)) = length (threads s).
Proof.
  intros Hi. revert s. induction schedule as [|tid schedule IH]; intros s Hinv.
  - done.
  - simpl. destruct (IH (system_step self tid s)) as [H1 H2].
    + by eapply system_step_read_once.
    + split; [done|]. etrans; [apply H2|apply system_step_length].
Qed.

Lemma delivered_read_once (n : nat) (w : World) : read_once (delivered n w).
Proof.
  intros tid p Hp. simpl in Hp. apply lookup_replicate in Hp as [-> _]. done.
Qed.

Lemma in_flight_not_begun (k : nat) (g : nat → nat) :
  omap (λ x : nat * pc, if in_read x.2 then Some x.1 else None)
       (imap (λ tid p, (g tid, p)) (replicate k AtRead)) = [].
Proof.
  revert g. induction k as [|k IH]; intros g; [done|].
  simpl. apply (IH (g ∘ S)).
Qed.

(** A step only adds calls to the trace, and [step_calls] is what it adds. *)
Lemma system_step_extends (self : AGVServer.t) (tid : nat) (s : system) :
  trace (world (system_step self tid s))
  = trace (world s) ++ step_calls self tid s.
Proof.
  assert (∃ d, trace (world (system_step self tid s)) = trace (world s) ++ d)
    as [d Hd].
  { unfold system_step.
    destruct (threads s !! tid) as [p|]; [|by exists []; rewrite app_nil_r].
    destruct (final p) eqn:Hf; [by exists []; rewrite app_nil_r|].
    destruct (handler_step self p (world s)) as [p' w'] eqn:Hstep. simpl.
    destruct p as [|j|v| |]; try done;
      unfold handler_step, AGVGuideSensor.getattr_inst, read_register in Hstep;
      revert Hstep; run_M.
    - destruct (AGVGuideSensor.inst _); intros [= _ <-];
        exists []; by rewrite app_nil_r.
    - destruct (raises _ _ _); intros [= _ <-]; by eexists.
    - destruct (raises _ _ _); intros [= _ <-]; by eexists. }
  unfold step_calls. rewrite Hd. by rewrite drop_app_length.
Qed.

(** What the step of a thread adds, by where the thread is: nothing when
    the read is issued, the register read when the read in flight returns
    or raises, the emit after that. *)
Lemma step_calls_pc (self : AGVServer.t) (i : Instrument) (tid : nat)
    (s : system) (p : pc) :
  AGVGuideSensor.inst (AGVServer.sensor self) = Some i →
  threads s !! tid = Some p →
  step_calls self tid s
  = match p with
    | InRead j =>
        [(ReadRegister (port j) (address j) 0x28,
          raises (env (world s)) (trace (world s))
            (ReadRegister (port j) (address j) 0x28))]
    | AtEmit v =>
        [(SioEmit (AGVServer.socketio_request_event_name self +:+ "Response")
                  {[ "value" := v ]},
          raises (env (world s)) (trace (world s))
            (SioEmit (AGVServer.socketio_request_event_name self +:+ "Response")
                     {[ "value" := v ]}))]
    | _ => []
    end.
Proof.
  intros Hi Hp. unfold step_calls, system_step. rewrite Hp.
  destruct p as [|j|v| |]; simpl; try by rewrite drop_all.
  - unfold AGVGuideSensor.getattr_inst. rewrite Hi. simpl. by rewrite drop_all.
  - unfold read_register. run_M.
    destruct (raises _ _ _); simpl; by rewrite drop_app_length.
  - run_M. destruct (raises _ _ _); simpl; by rewrite drop_app_length.
Qed.

(** The calls listed with their thread are the calls of the trace. *)
Lemma run_trace_tagged (self : AGVServer.t) (schedule : list nat) (s : system) :
  trace (world (run self schedule s))
  = trace (world s) ++ (tagged self schedule s).*2.
Proof.
  revert s. induction schedule as [|tid schedule IH]; intros s.
  - simpl. by rewrite app_nil_r.
  - change (run self (tid :: schedule) s)
      with (run self schedule (system_step self tid s)).
    rewrite IH, system_step_extends, <- app_assoc. f_equal.
    simpl. rewrite fmap_app. f_equal. rewrite <- list_fmap_compose.
    by rewrite list_fmap_id.
Qed.

Lemma system_step_on_instrument (self : AGVServer.t) (i : Instrument) (tid : nat)
    (s : system) :
  AGVGuideSensor.inst (AGVServer.sensor self) = Some i →
  Forall (λ p, ∀ j, p = InRead j → j = i) (threads s) →
  Forall (λ p, ∀ j, p = InRead j → j = i) (threads (system_step self tid s)).
Proof.
  intros Hi Hin. unfold system_step.
  destruct (threads s !! tid) as [p|] eqn:Hp; [|done].
  destruct (final p); [done|].
  destruct (handler_step self p (world s)) as [p' w'] eqn:Hstep. simpl.
  apply Forall_insert; [done|]. intros j ->.
  destruct p; simpl in Hstep; try done.
  - unfold AGVGuideSensor.getattr_inst in Hstep. rewrite Hi in Hstep.
    by injection Hstep as <- _.
  - by destruct (read_register _ _ _) as [[v|e] w1].
  - by destruct (extcall _ _) as [[u|e] w1].
Qed.

(** Where thread [tid] gets by a step of thread [t]. *)
Lemma system_step_lookup (self : AGVServer.t) (i : Instrument) (t tid : nat)
    (s : system) (p : pc) :
  AGVGuideSensor.inst (AGVServer.sensor self) = Some i →
  threads s !! tid = Some p →
  ∃ p1, threads (system_step self t s) !! tid = Some p1
        ∧ (t ≠ tid → p1 = p)
        ∧ (t = tid → past_read p1 = past_read p || in_read p).
Proof.
  intros Hi Hp. unfold system_step.
  destruct (decide (t = tid)) as [->|Hne].
  - rewrite Hp.
    destruct (final p) eqn:Hf; [exists p; by destruct p|].
    destruct (handler_step self p (world s)) as [p' w'] eqn:Hstep. simpl.
    exists p'. rewrite list_lookup_insert_eq by by eapply lookup_lt_Some.
    split; [done|]. split; [done|]. intros _.
    destruct p; simpl in Hstep, Hf; try done.
    + unfold AGVGuideSensor.getattr_inst in Hstep. rewrite Hi in Hstep.
      by injection Hstep as <- _.
    + destruct (read_register _ _ _) as [[v|e] w1]; by injection Hstep as <- _.
    + destruct (extcall _ _) as [[u|e] w1]; by injection Hstep as <- _.
  - exists p. split; [|done].
    destruct (threads s !! t) as [q|]; [|done].
    destruct (final q); [done|].
    destruct (handler_step self q (world s)) as [q' w']. simpl.
    by rewrite list_lookup_insert_ne.
Qed.

Lemma calls_of_app (tid : nat) (l1 l2 : list (nat * entry)) :
  calls_of tid (l1 ++ l2) = calls_of tid l1 ++ calls_of tid l2.
Proof. unfold calls_of. by rewrite filter_app, fmap_app. Qed.

Lemma calls_of_tag (tid t : nat) (d : list entry) :
  calls_of tid ((λ ent, (t, ent)) <$> d) = if decide (t = tid) then d else [].
Proof.
  unfold calls_of. destruct (decide (t = tid)) as [Heq|Hne].
  - induction d as [|x d IH]; [done|].
    rewrite fmap_cons, filter_cons_True, fmap_cons by done. simpl. by rewrite IH.
  - induction d as [|x d IH]; [done|].
    by rewrite fmap_cons, filter_cons_False.
Qed.

(** The register reads of one thread along a schedule: one, on the
    instrument of the service at 0x28, if the thread gets past its read
    on the way, none otherwise. *)
Lemma run_calls_of (self : AGVServer.t) (i : Instrument) (schedule : list nat)
    (s : system) (tid : nat) (p : pc) :
  AGVGuideSensor.inst (AGVServer.sensor self) = Some i →
  Forall (λ p, ∀ j, p = InRead j → j = i) (threads s) →
  threads s !! tid = Some p →
  ∃ p', threads (run self schedule s) !! tid = Some p'
        ∧ (past_read p = true → past_read p' = true)
        ∧ reads (calls_of tid (tagged self schedule s))
          = if past_read p' && negb (past_read p)
            then [(port i, address i, 0x28%Z)] else [].
Proof.
  intros Hi. revert s p. induction schedule as [|t schedule IH]; intros s p Hin Hp.
  - exists p. simpl. split; [done|]. split; [done|]. by destruct (past_read p).
  - destruct (system_step_lookup self i t tid s p Hi Hp) as (p1 & Hp1 & Hsame & Hpast).
    destruct (IH (system_step self t s) p1
                (system_step_on_instrument self i t s Hi Hin) Hp1)
      as (p' & Hp' & Hmono & Hreads).
    exists p'. split; [done|].
    simpl. rewrite calls_of_app, calls_of_tag. unfold reads in *.
    rewrite omap_app, Hreads.
    destruct (decide (t = tid)) as [->|Hne].
    + specialize (Hpast eq_refl). split.
      { intros Hpp. apply Hmono. by rewrite Hpast, Hpp. }
      rewrite (step_calls_pc self i tid s p Hi Hp).
      assert (∀ j, p = InRead j → j = i) as Hpi.
      { rewrite Forall_forall in Hin. apply Hin. by eapply list_elem_of_lookup_2. }
      destruct p as [|j|v| |]; simpl in *.
      * by rewrite Hpast.
      * pose proof (Hpi j eq_refl) as ->. pose proof (Hmono Hpast) as Hp'past.
        by rewrite Hp'past, Hpast.
      * rewrite Hpast. simpl. by rewrite andb_false_r.
      * rewrite Hpast. simpl. by rewrite andb_false_r.
      * rewrite Hpast. simpl. by rewrite andb_false_r.
    + rewrite (Hsame Hne) in *. by split.
Qed.

(** C3 as the specification words it: with two requests delivered at once
    and the schedule 0, 1, 1, 0, request 0 issues its read, then request 1
    issues its own and has it answered, and only then is the read of
    request 0 answered: the two register reads, one for each request,
    overlap.  After the first two steps both reads are in flight and none
    has returned; nothing in the handler makes the second thread wait. *)
Lemma reads_overlap_two_requests :
  in_flight (run bridge [0; 1] (delivered 2 (quiet [] 0x1234))) = [0; 1]
  ∧ reads (trace (world (run bridge [0; 1] (delivered 2 (quiet [] 0x1234))))) = []
  ∧ steps (run bridge [0; 1; 1; 0] (delivered 2 (quiet [] 0x1234)))
    = [(0, InRead {| port := "COM1"; address := 1; serial_baudrate := 115200 |});
       (1, InRead {| port := "COM1"; address := 1; serial_baudrate := 115200 |});
       (1, AtEmit 0x1234); (0, AtEmit 0x1234)]
  ∧ tagged bridge [0; 1; 1; 0] (delivered 2 (quiet [] 0x1234))
    = [(1, (ReadRegister "COM1" 1 0x28, None));
       (0, (ReadRegister "COM1" 1 0x28, None))]
  ∧ trace (world (run bridge [0; 1; 1; 0] (delivered 2 (quiet [] 0x1234))))
    = [(ReadRegister "COM1" 1 0x28, None); (ReadRegister "COM1" 1 0x28, None)].
Proof. repeat split; reflexivity. Qed.

(** C3 (amended): under any number [n ≥ 2] of request events delivered at
    once and any schedule that runs them all to their end, the register
    read is issued exactly once for each request: the calls of the trace,
    each taken with the thread that made it, hold for every request
    exactly one register read, on the instrument of the service at 0x28.
    The service itself does not make the reads exclusive: the handler
    takes no lock, and in the schedule in which two threads issue their
    read one right after the other both reads are in flight at the same
    instant, none has returned yet, and the next step of either thread is
    the answer to its register read. *)
Theorem deliveries_read_once_without_lock (self : AGVServer.t) (i : Instrument)
    (n : nat) (w : World) :
  AGVGuideSensor.inst (AGVServer.sensor self) = Some i →
  2 ≤ n →
  (∀ schedule,
     trace (world (run self schedule (delivered n w)))
     = trace w ++ (tagged self schedule (delivered n w)).*2)
  ∧ (∀ schedule tid,
       complete (run self schedule (delivered n w)) = true →
       tid < n →
       invocations tid (run self schedule (delivered n w)) = 1
       ∧ reads (calls_of tid (tagged self schedule (delivered n w)))
         = [(port i, address i, 0x28%Z)])
  ∧ in_flight (run self [0; 1] (delivered n w)) = [0; 1]
  ∧ trace (world (run self [0; 1] (delivered n w))) = trace w
  ∧ (∀ tid, tid < 2 →
       step_calls self tid (run self [0; 1] (delivered n w))
       = [(ReadRegister (port i) (address i) 0x28,
           raises (env w) (trace w) (ReadRegister (port i) (address i) 0x28))]).
Proof.
  intros Hi Hn. split; [|split; [|split; [|split]]].
  - intros schedule. apply (run_trace_tagged self schedule (delivered n w)).
  - intros schedule tid Hdone Htid.
    destruct (run_read_once self i schedule (delivered n w) Hi
                (delivered_read_once n w)) as [Hinv Hlen].
    simpl in Hlen. rewrite length_replicate in Hlen.
    assert (threads (delivered n w) !! tid = Some AtRead) as Hstart.
    { simpl. by apply lookup_replicate_2. }
    destruct (run_calls_of self i schedule (delivered n w) tid AtRead Hi)
      as (p & Hp & _ & Hreads); [|done|].
    { apply Forall_forall. intros q Hq%elem_of_replicate. by destruct Hq as [-> _]. }
    assert (final p = true) as Hf.
    { unfold complete in Hdone. rewrite forallb_forall in Hdone.
      apply Hdone, list_elem_of_In. by eapply list_elem_of_lookup_2. }
    split.
    + rewrite (Hinv tid p Hp). by destruct p.
    + rewrite Hreads. by destruct p.
  - destruct n as [|[|k]]; [lia..|].
    unfold run, delivered, system_step, handler_step,
      AGVGuideSensor.getattr_inst, in_flight. simpl.
    rewrite Hi. simpl. do 2 f_equal.
    apply (in_flight_not_begun k (S ∘ S)).
  - destruct n as [|[|k]]; [lia..|].
    unfold run, delivered, system_step, handler_step,
      AGVGuideSensor.getattr_inst. simpl. by rewrite Hi.
  - intros tid Htid. destruct n as [|[|k]]; [lia..|].
    assert (run self [0; 1] (delivered (S (S k)) w)
            = {| threads := InRead i :: InRead i :: replicate k AtRead;
                 world := w;
                 steps := [(0, InRead i); (1, InRead i)] |}) as ->.
    { unfold run, delivered, system_step, handler_step,
        AGVGuideSensor.getattr_inst. simpl. by rewrite Hi. }
    set (s2 := {| threads := InRead i :: InRead i :: replicate k AtRead;
                  world := w;
                  steps := [(0, InRead i); (1, InRead i)] |}).
    destruct tid as [|[|tid]]; [| |lia].
    + by rewrite (step_calls_pc self i 0 s2 (InRead i) Hi eq_refl).
    + by rewrite (step_calls_pc self i 1 s2 (InRead i) Hi eq_refl).
Qed.

Lemma deliveries_read_once_without_lock_witness :
  complete (run bridge [0; 1; 0; 1; 0; 1] (delivered 2 (quiet [] 0x1234))) = true
  ∧ invocations 0 (run bridge [0; 1; 0; 1; 0; 1] (delivered 2 (quiet [] 0x1234))) = 1
  ∧ invocations 1 (run bridge [0; 1; 0; 1; 0; 1] (delivered 2 (quiet [] 0x1234))) = 1
  ∧ reads (calls_of 0 (tagged bridge [0; 1; 0; 1; 0; 1]
                         (delivered 2 (quiet [] 0x1234))))
    = [("COM1", 1%Z, 0x28%Z)]
  ∧ reads (calls_of 1 (tagged bridge [0; 1; 0; 1; 0; 1]
                         (delivered 2 (quiet [] 0x1234))))
    = [("COM1", 1%Z, 0x28%Z)]
  ∧ in_flight (run bridge [0; 1] (delivered 2 (quiet [] 0x1234))) = [0; 1].
Proof.
  destruct (deliveries_read_once_without_lock bridge
              {| port := "COM1"; address := 1; serial_baudrate := 115200 |}
              2 (quiet [] 0x1234) eq_refl (le_n 2))
    as (_ & Honce & Hoverlap & _).
  split; [reflexivity|].
  destruct (Honce [0; 1; 0; 1; 0; 1] 0 eq_refl (Nat.lt_0_succ 1)) as [Hi0 Hr0].
  destruct (Honce [0; 1; 0; 1; 0; 1] 1 eq_refl (Nat.lt_succ_diag_r 1)) as [Hi1 Hr1].
  split; [exact Hi0|]. split; [exact Hi1|]. split; [exact Hr0|].
  split; [exact Hr1|exact Hoverlap].
Defined.

(** * Further properties of the code *)

(** ** The locator *)

Lemma candidates_nil (ports : list port_info) :
  candidates ports = [] ↔ ∀ p, p ∈ ports → str_in " CP210" p.2 = false.
Proof.
  unfold candidates. split.
  - intros H%fmap_nil_inv p Hp.
    destruct (str_in " CP210" p.2) eqn:Hm; [|done].
    destruct (filter_nil_not_elem_of _ _ p H); [by rewrite Hm|done].
  - intros H. induction ports as [|q ports IH]; [done|].
    rewrite filter_cons. rewrite (H q) by apply list_elem_of_here. simpl.
    apply IH. intros p Hp. apply H. by apply list_elem_of_further.
Qed.

Lemma sorted_nil (l : list string) : sorted l = [] ↔ l = [].
Proof.
  split; [|by intros ->].
  intros H. apply Permutation_nil. rewrite <- H. apply sorted_Permutation.
Qed.

(** X1: when the enumeration returns, the locator returns the empty list
    exactly when no descriptor holds the marker, and never more identifiers
    than there are entries. *)
Theorem find_serial_port_empty_iff (w : World) :
  raises (env w) (trace w) Comports = None →
  ((find_serial_port w).1 = Return [] ↔
   ∀ p, p ∈ comports (env w) (trace w) → str_in " CP210" p.2 = false)
  ∧ ∀ ids, (find_serial_port w).1 = Return ids →
           length ids ≤ length (comports (env w) (trace w)).
Proof.
  intros Hok. rewrite find_serial_port_run, Hok. simpl. split.
  - rewrite <- candidates_nil, <- sorted_nil. split; [by intros [= ->]|by intros ->].
  - intros ids [= <-]. rewrite (sorted_Permutation (candidates _)).
    unfold candidates. rewrite length_fmap. apply length_filter.
Qed.

Lemma find_serial_port_empty_iff_witness :
  (find_serial_port (quiet [("COM3", "Prolific"); ("COM4", "CP2102")] 0)).1
  = Return []
  ∧ ∀ ids,
      (find_serial_port (quiet [("COM1", "USB CP2102"); ("COM3", "X")] 0)).1
      = Return ids →
      length ids ≤ 2.
Proof.
  split.
  - apply (proj1 (find_serial_port_empty_iff
                    (quiet [("COM3", "Prolific"); ("COM4", "CP2102")] 0) eq_refl)).
    intros p Hp. simpl in Hp.
    apply elem_of_cons in Hp as [->|Hp]; [reflexivity|].
    apply elem_of_cons in Hp as [->|Hp]; [reflexivity|].
    by apply elem_of_nil in Hp.
  - apply (proj2 (find_serial_port_empty_iff
                    (quiet [("COM1", "USB CP2102"); ("COM3", "X")] 0) eq_refl)).
Defined.

(** X2: the identifier the locator lists first, the one [main] takes, is a
    matching entry of the enumeration and is the least of the candidates. *)
Theorem find_serial_port_first_is_least (w : World) (p : string)
    (rest : list string) :
  (find_serial_port w).1 = Return (p :: rest) →
  (∃ desc, (p, desc) ∈ comports (env w) (trace w) ∧ str_in " CP210" desc = true)
  ∧ ∀ id, id ∈ candidates (comports (env w) (trace w)) → String.le p id.
Proof.
  rewrite find_serial_port_run.
  destruct (raises (env w) (trace w) Comports); [done|]. simpl.
  intros [= Hs]. split.
  - assert (p ∈ candidates (comports (env w) (trace w))) as Hin.
    { rewrite <- (sorted_Permutation (candidates _)), Hs. apply list_elem_of_here. }
    apply elem_of_candidates in Hin as (desc & pre & post & Hin & ->).
    exists (pre +:+ " CP210" +:+ post). split; [done|].
    apply str_in_spec. by exists pre, post.
  - intros id Hid. rewrite <- (sorted_Permutation (candidates _)), Hs in Hid.
    pose proof (sorted_Sorted (candidates (comports (env w) (trace w)))) as Hsorted.
    rewrite Hs in Hsorted. apply (Sorted_StronglySorted _) in Hsorted.
    apply StronglySorted_inv in Hsorted as [_ Hall].
    apply elem_of_cons in Hid as [->|Hid]; [done|].
    rewrite Forall_forall in Hall. by apply Hall.
Qed.

Lemma find_serial_port_first_is_least_witness :
  String.le "COM2" "COM4".
Proof.
  apply (proj2 (find_serial_port_first_is_least
                  (quiet [("COM9", "Prolific"); ("COM4", "Silicon Labs CP210x");
                          ("COM2", "Silicon Labs CP210x")] 0)
                  "COM2" ["COM4"] eq_refl)).
  simpl. apply list_elem_of_here.
Defined.

(** X3: entries whose descriptor lacks the marker have no influence: an
    enumeration with other devices added, in any position, gives the same
    candidate list. *)
Theorem find_serial_port_ignores_other_devices (w1 w2 : World)
    (others : list port_info) :
  raises (env w1) (trace w1) Comports = None →
  raises (env w2) (trace w2) Comports = None →
  comports (env w2) (trace w2) ≡ₚ comports (env w1) (trace w1) ++ others →
  (∀ p, p ∈ others → str_in " CP210" p.2 = false) →
  (find_serial_port w2).1 = (find_serial_port w1).1.
Proof.
  intros Hok1 Hok2 Hperm Hothers.
  rewrite !find_serial_port_run, Hok1, Hok2. simpl. f_equal.
  apply sorted_perm_eq. rewrite (candidates_Permutation _ _ Hperm).
  unfold candidates. rewrite filter_app, fmap_app.
  apply candidates_nil in Hothers. unfold candidates in Hothers.
  by rewrite Hothers, app_nil_r.
Qed.

Lemma find_serial_port_ignores_other_devices_witness :
  (find_serial_port
     (quiet [("COM1", "Bluetooth link"); ("COM4", "Silicon Labs CP210x");
             ("COM3", "Prolific")] 0)).1
  = (find_serial_port (quiet [("COM4", "Silicon Labs CP210x")] 0)).1.
Proof.
  apply (find_serial_port_ignores_other_devices
           (quiet [("COM4", "Silicon Labs CP210x")] 0)
           (quiet [("COM1", "Bluetooth link"); ("COM4", "Silicon Labs CP210x");
                   ("COM3", "Prolific")] 0)
           [("COM1", "Bluetooth link"); ("COM3", "Prolific")] eq_refl eq_refl).
  - simpl. apply perm_swap.
  - intros p Hp.
    apply elem_of_cons in Hp as [->|Hp]; [reflexivity|].
    apply elem_of_cons in Hp as [->|Hp]; [reflexivity|].
    by apply elem_of_nil in Hp.
Defined.

(** ** The sensor handle, opened and closed *)

(** X4: each of the two optional arguments of [AGVGuideSensor] is replaced
    by its default only when it is None (an explicit 0 is kept); a handle
    that is returned was opened by exactly two calls, [mm.Instrument] with
    the sub-address and the setting of the baud rate, and holds both. *)
Theorem AGVGuideSensor_init_passes_arguments (p : string)
    (modbus_id baudrate : option Z) (w w' : World) (self : AGVGuideSensor.t) :
  AGVGuideSensor.__init__ p modbus_id baudrate w = (Return self, w') →
  let m := default 1%Z modbus_id in
  let b := default 115200%Z baudrate in
  AGVGuideSensor.inst self
  = Some {| port := p; address := m; serial_baudrate := b |}
  ∧ trace w' = trace w ++ [(MmInstrument p m, None); (SetBaudrate p b, None)].
Proof.
  rewrite AGVGuideSensor_init_run. simpl.
  destruct modbus_id as [m|], baudrate as [b|]; simpl;
    (destruct (raises (env w) (trace w) _); [done|]);
    (destruct (raises (env w) (trace w ++ _) _); [done|]);
    intros [= <- <-]; simpl; by rewrite <- app_assoc.
Qed.

Lemma AGVGuideSensor_init_passes_arguments_witness :
  AGVGuideSensor.inst
    (match (AGVGuideSensor.__init__ "COM2" (Some 0%Z) (Some 9600%Z) (quiet [] 0)).1 with
     | Return self => self
     | Raise _ => handle
     end)
  = Some {| port := "COM2"; address := 0; serial_baudrate := 9600 |}.
Proof.
  exact (proj1 (AGVGuideSensor_init_passes_arguments "COM2" (Some 0%Z)
                  (Some 9600%Z) (quiet [] 0) _ _ eq_refl)).
Defined.

(** X5: when [AGVGuideSensor] cannot be opened, the exception is that of
    the call that failed and no close is called.  If [mm.Instrument]
    failed, the baud rate is not touched and no port was opened; if setting
    the baud rate failed, the port that was just opened is left open, with
    no handle returned to close it. *)
Theorem AGVGuideSensor_init_failure (p : string) (modbus_id baudrate : option Z)
    (w w' : World) (e : exn) :
  AGVGuideSensor.__init__ p modbus_id baudrate w = (Raise e, w') →
  let m := default 1%Z modbus_id in
  let b := default 115200%Z baudrate in
  closes (trace w') = closes (trace w)
  ∧ ((trace w' = trace w ++ [(MmInstrument p m, Some e)]
      ∧ serial_open (trace w') = serial_open (trace w))
     ∨ (trace w' = trace w ++ [(MmInstrument p m, None); (SetBaudrate p b, Some e)]
        ∧ serial_open (trace w') = serial_open (trace w) ++ [p])).
Proof.
  rewrite AGVGuideSensor_init_run. simpl.
  destruct modbus_id as [m|], baudrate as [b|]; simpl;
    (destruct (raises (env w) (trace w) _) as [e1|];
     [|destruct (raises (env w) (trace w ++ _) _) as [e2|]; [|done]]);
    intros [= <- <-]; simpl; rewrite <- ?app_assoc; simpl;
    (split; [unfold closes; rewrite omap_app; simpl; by rewrite app_nil_r|]);
    rewrite serial_open_app; simpl; auto.
Qed.

Lemma AGVGuideSensor_init_failure_witness :
  serial_open
    (trace (AGVGuideSensor.__init__ "COM1" None None
              {| env := {| raises := λ _ c,
                             match c with
                             | SetBaudrate _ _ => Some (LibraryError "SerialException")
                             | _ => None
                             end;
                           comports := λ _, [];
                           registers := λ _ _, 0%Z |};
                 trace := [] |}).2)
  = ["COM1"].
Proof.
  destruct (AGVGuideSensor_init_failure "COM1" None None
              {| env := {| raises := λ _ c,
                             match c with
                             | SetBaudrate _ _ => Some (LibraryError "SerialException")
                             | _ => None
                             end;
                           comports := λ _, [];
                           registers := λ _ _, 0%Z |};
                 trace := [] |} _ (LibraryError "SerialException") eq_refl)
    as (_ & [[Htrace _]|[_ Hopen]]).
  - discriminate Htrace.
  - exact Hopen.
Defined.

(** X6: each call of [__del__] on a handle that holds an instrument calls
    close on its port once more, whether or not an earlier call closed it
    and whatever error close meets; it makes no other call.  On a handle
    without the [inst] attribute it makes no call at all. *)
Theorem del_closes_each_time (n : nat) (self : AGVGuideSensor.t) (w : World) :
  (∀ h p e, raises (env w) h (SerialClose p) = Some e → is_Exception e = true) →
  (trace (times n (AGVGuideSensor.__del__ self) w).2).*1
  = (trace w).*1 ++
    match AGVGuideSensor.inst self with
    | Some i => replicate n (SerialClose (port i))
    | None => []
    end.
Proof.
  revert w. induction n as [|n IH]; intros w Herr.
  - simpl. destruct (AGVGuideSensor.inst self); by rewrite app_nil_r.
  - simpl. unfold mbind, M_bind. rewrite del_run.
    destruct (AGVGuideSensor.inst self) as [i|] eqn:Hi.
    + simpl. destruct (raises (env w) (trace w) _) as [e|] eqn:Hr.
      * rewrite (Herr _ _ _ Hr). rewrite IH by done. simpl.
        by rewrite fmap_app, <- app_assoc.
      * rewrite IH by done. simpl.
        by rewrite fmap_app, <- app_assoc.
    + by rewrite IH.
Qed.

Lemma del_closes_each_time_witness :
  (trace (times 3 (AGVGuideSensor.__del__ handle) close_fails).2).*1
  = [SerialClose "COM1"; SerialClose "COM1"; SerialClose "COM1"].
Proof.
  apply (del_closes_each_time 3 handle close_fails).
  intros h p e. simpl. by intros [= <-].
Defined.

(** X7: [__del__] swallows instances of [Exception] only: when close raises
    KeyboardInterrupt or SystemExit, [__del__] raises it too. *)
Theorem del_lets_base_exceptions_through (self : AGVGuideSensor.t)
    (i : Instrument) (w : World) (e : exn) :
  AGVGuideSensor.inst self = Some i →
  raises (env w) (trace w) (SerialClose (port i)) = Some e →
  is_Exception e = false →
  (AGVGuideSensor.__del__ self w).1 = Raise e.
Proof.
  intros Hi Hr He. rewrite del_run, Hi. simpl. by rewrite Hr, He.
Qed.

Lemma del_lets_base_exceptions_through_witness :
  (AGVGuideSensor.__del__ handle
     {| env := {| raises := λ _ _, Some KeyboardInterrupt;
                  comports := λ _, [];
                  registers := λ _ _, 0%Z |};
        trace := [] |}).1
  = Raise KeyboardInterrupt.
Proof.
  by apply (del_lets_base_exceptions_through handle
              {| port := "COM1"; address := 1; serial_baudrate := 115200 |}).
Defined.

Lemma filter_ne_snoc (l : list string) (p : string) :
  p ∉ l → filter (λ q, q ≠ p) (l ++ [p]) = l.
Proof.
  intros Hp. rewrite filter_app, filter_cons, filter_nil.
  rewrite decide_False by (by intros H; apply H).
  rewrite app_nil_r. induction l as [|q l IH]; [done|].
  apply not_elem_of_cons in Hp as [Hne Hp].
  rewrite filter_cons, decide_True by done. by rewrite IH.
Qed.

(** X8: opening a handle on a port that was not open and then finalizing it
    with a close that succeeds leaves the serial ports open as they were
    before. *)
Theorem AGVGuideSensor_open_then_del (p : string) (modbus_id baudrate : option Z)
    (w w1 : World) (self : AGVGuideSensor.t) :
  AGVGuideSensor.__init__ p modbus_id baudrate w = (Return self, w1) →
  raises (env w1) (trace w1) (SerialClose p) = None →
  p ∉ serial_open (trace w) →
  (AGVGuideSensor.__del__ self w1).1 = Return tt
  ∧ serial_open (trace w1) = serial_open (trace w) ++ [p]
  ∧ serial_open (trace (AGVGuideSensor.__del__ self w1).2) = serial_open (trace w).
Proof.
  intros Hinit Hclose Hp.
  assert (AGVGuideSensor.inst self
          = Some {| port := p; address := default 1%Z modbus_id;
                    serial_baudrate := default 115200%Z baudrate |}
          ∧ trace w1 = trace w ++ [(MmInstrument p (default 1%Z modbus_id), None);
                                   (SetBaudrate p (default 115200%Z baudrate), None)])
    as [Hi Ht].
  { rewrite AGVGuideSensor_init_run in Hinit. simpl in Hinit.
    destruct modbus_id as [m|], baudrate as [b|]; simpl in *;
      (destruct (raises (env w) (trace w) _); [done|]);
      (destruct (raises (env w) (trace w ++ _) _); [done|]);
      injection Hinit as <- <-; simpl; by rewrite <- app_assoc. }
  rewrite del_run, Hi. simpl. rewrite Hclose. simpl.
  assert (serial_open (trace w1) = serial_open (trace w) ++ [p]) as Hopen.
  { rewrite Ht, serial_open_app. done. }
  split; [done|]. split; [done|].
  rewrite serial_open_app. simpl. rewrite Hopen. by apply filter_ne_snoc.
Qed.

Lemma AGVGuideSensor_open_then_del_witness :
  serial_open
    (trace (AGVGuideSensor.__del__ handle
              (AGVGuideSensor.__init__ "COM1" None None (quiet [] 0)).2).2)
  = [].
Proof.
  refine (proj2 (proj2 (AGVGuideSensor_open_then_del "COM1" None None (quiet [] 0)
                          _ handle eq_refl eq_refl _))).
  simpl. apply not_elem_of_nil.
Defined.

(** ** The handler, request after request *)

Lemma sio_handler_returns (self : AGVServer.t) (i : Instrument) (w w1 : World) :
  AGVGuideSensor.inst (AGVServer.sensor self) = Some i →
  AGVServer.sio_handler self w = (Return tt, w1) →
  w1 = {| env := env w;
          trace := trace w ++
            [(ReadRegister (port i) (address i) 0x28, None);
             (SioEmit (AGVServer.socketio_request_event_name self +:+ "Response")
                      {[ "value" := registers (env w) (trace w) 0x28 ]}, None)] |}.
Proof.
  intros Hi. rewrite sio_handler_run, (value_run _ i w Hi). simpl.
  destruct (raises (env w) (trace w) _); [done|].
  unfold extcall. simpl.
  destruct (raises (env w) (trace w ++ _) _); [done|].
  intros [= <-]. by rewrite <- app_assoc.
Qed.

(** X9: the handler keeps no reading: two requests served one after the
    other issue two register reads, and each response carries what its own
    read answered. *)
Theorem sio_handler_reads_afresh (self : AGVServer.t) (i : Instrument)
    (w w1 w2 : World) :
  AGVGuideSensor.inst (AGVServer.sensor self) = Some i →
  AGVServer.sio_handler self w = (Return tt, w1) →
  AGVServer.sio_handler self w1 = (Return tt, w2) →
  let event_name := AGVServer.socketio_request_event_name self +:+ "Response" in
  reads (trace w2)
  = reads (trace w) ++ [(port i, address i, 0x28%Z); (port i, address i, 0x28%Z)]
  ∧ emits (trace w2)
    = emits (trace w) ++
      [(event_name, {[ "value" := registers (env w) (trace w) 0x28 ]});
       (event_name, {[ "value" := registers (env w) (trace w1) 0x28 ]})].
Proof.
  intros Hi H1 H2 event_name.
  apply (sio_handler_returns self i) in H2; [|done].
  pose proof (sio_handler_returns self i w w1 Hi H1) as Hw1.
  clear H1. subst w1. simpl in H2. subst w2. simpl.
  unfold reads, emits. rewrite !omap_app. simpl.
  by rewrite ?app_nil_r, <- ?app_assoc.
Qed.

Lemma sio_handler_reads_afresh_witness :
  emits (trace (AGVServer.sio_handler bridge
                  (AGVServer.sio_handler bridge ticking).2).2)
  = [("AGVGuideSensorResponse", {[ "value" := 0%Z ]});
     ("AGVGuideSensorResponse", {[ "value" := 2%Z ]})].
Proof.
  exact (proj2 (sio_handler_reads_afresh bridge
                  {| port := "COM1"; address := 1; serial_baudrate := 115200 |}
                  ticking
                  (AGVServer.sio_handler bridge ticking).2
                  (AGVServer.sio_handler bridge
                     (AGVServer.sio_handler bridge ticking).2).2
                  eq_refl eq_refl eq_refl)).
Defined.

(** ** Deliveries at once: what reaches the sensor and the transport *)

Lemma count_insert (P : pc → bool) (l : list pc) (tid : nat) (p p' : pc) :
  l !! tid = Some p →
  length (filter (λ q, P q) (<[tid:=p']> l)) + (if P p then 1 else 0)
  = length (filter (λ q, P q) l) + (if P p' then 1 else 0).
Proof.
  revert tid. induction l as [|q l IH]; intros [|tid] Hl; try done.
  - injection Hl as ->. simpl. rewrite !filter_cons.
    destruct (P p), (P p'); simpl; lia.
  - simpl in *. rewrite !filter_cons. specialize (IH tid Hl).
    destruct (P q); simpl; lia.
Qed.

Lemma delivered_serving (self : AGVServer.t) (i : Instrument) (n : nat) (w : World) :
  serving self i w (delivered n w).
Proof.
  unfold serving, delivered. simpl. split; [|split; [done|split]].
  - apply Forall_forall. intros p Hp%elem_of_replicate. by destruct Hp as [-> _].
  - exists []. by rewrite app_nil_r.
  - assert (∀ (P : pc → bool), P AtRead = false →
              filter (λ p, P p) (replicate n AtRead) = []) as Hnone.
    { intros P HP. induction n as [|n IH]; [done|].
      simpl. rewrite filter_cons, HP. done. }
    rewrite !Hnone by done. simpl. lia.
Qed.

Lemma system_step_serving (self : AGVServer.t) (i : Instrument) (w0 : World)
    (tid : nat) (s : system) :
  AGVGuideSensor.inst (AGVServer.sensor self) = Some i →
  serving self i w0 s → serving self i w0 (system_step self tid s).
Proof.
  intros Hi Hs.
  pose proof Hs as (Hin & Henv & (delta & Htr & Hcalls) & Hreads & Hemits).
  unfold system_step.
  destruct (threads s !! tid) as [p|] eqn:Hp; [|done].
  destruct (final p) eqn:Hf; [done|].
  pose proof (count_insert past_read (threads s) tid p) as Hpast.
  pose proof (count_insert final (threads s) tid p) as Hfin.
  rewrite Hf in Hfin.
  assert (∀ j, p = InRead j → j = i) as Hpi.
  { rewrite Forall_forall in Hin. apply Hin. by eapply list_elem_of_lookup_2. }
  destruct p as [|j|v| |]; simpl in Hf; try done; simpl.
  - (* the read is issued *)
    unfold AGVGuideSensor.getattr_inst. rewrite Hi. simpl.
    specialize (Hpast (InRead i) Hp). specialize (Hfin (InRead i) Hp).
    simpl in *. unfold serving. simpl.
    split; [|split; [done|split; [by exists delta|]]].
    + apply Forall_insert; [done|]. by intros j [= <-].
    + lia.
  - (* the read returns or raises *)
    rewrite (Hpi j eq_refl). unfold read_register. run_M.
    destruct (raises (env (world s)) (trace (world s)) _) as [e|]; simpl.
    + specialize (Hpast (Crashed e) Hp). specialize (Hfin (Crashed e) Hp).
      simpl in *. unfold serving. simpl.
      split; [by apply Forall_insert|]. split; [done|]. split.
      * exists (delta ++ [(ReadRegister (port i) (address i) 0x28, Some e)]).
        rewrite Htr, <- app_assoc. split; [done|].
        apply Forall_app. split; [done|]. by repeat constructor.
      * unfold reads, emits in *. rewrite !omap_app, !length_app. simpl. lia.
    + specialize (Hpast (AtEmit (registers (env (world s)) (trace (world s)) 40)) Hp).
      specialize (Hfin (AtEmit (registers (env (world s)) (trace (world s)) 40)) Hp).
      simpl in *. unfold serving. simpl.
      split; [by apply Forall_insert|]. split; [done|]. split.
      * exists (delta ++ [(ReadRegister (port i) (address i) 0x28, None)]).
        rewrite Htr, <- app_assoc. split; [done|].
        apply Forall_app. split; [done|]. by repeat constructor.
      * unfold reads, emits in *. rewrite !omap_app, !length_app. simpl. lia.
  - (* the response is emitted *)
    run_M.
    destruct (raises (env (world s)) (trace (world s)) _) as [e|]; simpl.
    + specialize (Hpast (Crashed e) Hp). specialize (Hfin (Crashed e) Hp).
      simpl in *. unfold serving. simpl.
      split; [by apply Forall_insert|]. split; [done|]. split.
      * eexists (delta ++ [(SioEmit _ _, Some e)]).
        rewrite Htr, <- app_assoc. split; [done|].
        apply Forall_app. split; [done|].
        constructor; [|done]. simpl. eauto.
      * unfold reads, emits in *. rewrite !omap_app, !length_app. simpl. lia.
    + specialize (Hpast Finished Hp). specialize (Hfin Finished Hp).
      simpl in *. unfold serving. simpl.
      split; [by apply Forall_insert|]. split; [done|]. split.
      * eexists (delta ++ [(SioEmit _ _, None)]).
        rewrite Htr, <- app_assoc. split; [done|].
        apply Forall_app. split; [done|].
        constructor; [|done]. simpl. eauto.
      * unfold reads, emits in *. rewrite !omap_app, !length_app. simpl. lia.
Qed.

Lemma run_serving (self : AGVServer.t) (i : Instrument) (w0 : World)
    (schedule : list nat) (s : system) :
  AGVGuideSensor.inst (AGVServer.sensor self) = Some i →
  serving self i w0 s → serving self i w0 (run self schedule s).
Proof.
  intros Hi. revert s. induction schedule as [|tid schedule IH]; intros s Hs.
  - done.
  - simpl. apply IH. by apply system_step_serving.
Qed.

Lemma filter_all_final (P : pc → bool) (l : list pc) :
  (∀ p, final p = true → P p = true) →
  forallb final l = true → length (filter (λ p, P p) l) = length l.
Proof.
  intros HP. induction l as [|q l IH]; [done|]. simpl.
  intros [Hq Hl]%andb_true_iff. rewrite filter_cons, (HP q Hq). simpl.
  by rewrite IH.
Qed.

(** X10: however the deliveries of any number of requests are interleaved,
    and at every instant, the only calls they have made are register reads
    at 0x28 on the instrument of the service and emits of a [{"value": v}]
    payload under the response name; in particular the handler never
    closes the handle, never logs and never reconnects. *)
Theorem deliveries_only_read_and_emit (self : AGVServer.t) (i : Instrument)
    (n : nat) (schedule : list nat) (w : World) :
  AGVGuideSensor.inst (AGVServer.sensor self) = Some i →
  ∃ delta,
    trace (world (run self schedule (delivered n w))) = trace w ++ delta
    ∧ Forall (λ ent : entry, handler_call self i ent.1) delta
    ∧ closes delta = [] ∧ logged delta = [] ∧ construction_calls delta = [].
Proof.
  intros Hi.
  destruct (run_serving self i w schedule (delivered n w) Hi
              (delivered_serving self i n w))
    as (_ & _ & (delta & Htr & Hcalls) & _).
  exists delta. split; [done|]. split; [done|].
  clear Htr. induction Hcalls as [|[c r] delta Hc _ IH]; [done|].
  destruct IH as (IH1 & IH2 & IH3).
  unfold closes, logged, construction_calls in *.
  destruct c; simpl in Hc; try done; simpl; rewrite ?filter_cons; simpl; done.
Qed.

Lemma deliveries_only_read_and_emit_witness :
  ∃ delta,
    trace (world (run bridge [0; 1; 1; 0; 1; 0] (delivered 2 ticking))) = delta
    ∧ Forall (λ ent : entry,
                handler_call bridge
                  {| port := "COM1"; address := 1; serial_baudrate := 115200 |}
                  ent.1) delta.
Proof.
  destruct (deliveries_only_read_and_emit bridge
              {| port := "COM1"; address := 1; serial_baudrate := 115200 |}
              2 [0; 1; 1; 0; 1; 0] ticking eq_refl)
    as (delta & Htr & Hcalls & _).
  exists delta. split; [exact Htr|exact Hcalls].
Defined.

(** X11: when the deliveries of [n] requests have all ended, however they
    were interleaved, exactly [n] register reads have reached the sensor
    and at most [n] responses were handed to the transport. *)
Theorem deliveries_read_count (self : AGVServer.t) (i : Instrument)
    (n : nat) (schedule : list nat) (w : World) :
  AGVGuideSensor.inst (AGVServer.sensor self) = Some i →
  complete (run self schedule (delivered n w)) = true →
  length (reads (trace (world (run self schedule (delivered n w)))))
  = length (reads (trace w)) + n
  ∧ length (emits (trace (world (run self schedule (delivered n w)))))
    ≤ length (emits (trace w)) + n.
Proof.
  intros Hi Hdone.
  destruct (run_serving self i w schedule (delivered n w) Hi
              (delivered_serving self i n w))
    as (_ & _ & _ & Hreads & Hemits).
  destruct (run_read_once self i schedule (delivered n w) Hi
              (delivered_read_once n w)) as [_ Hlen].
  simpl in Hlen. rewrite length_replicate in Hlen.
  unfold complete in Hdone.
  rewrite (filter_all_final past_read) in Hreads; [|by intros []|done].
  rewrite (filter_all_final final) in Hemits; [|done|done].
  rewrite Hlen in Hreads, Hemits. done.
Qed.

Lemma deliveries_read_count_witness :
  length (reads (trace (world (run bridge [0; 1; 1; 0; 1; 0]
                                 (delivered 2 first_read_fails))))) = 2
  ∧ length (emits (trace (world (run bridge [0; 1; 1; 0; 1; 0]
                                   (delivered 2 first_read_fails))))) ≤ 2.
Proof.
  exact (deliveries_read_count bridge
           {| port := "COM1"; address := 1; serial_baudrate := 115200 |}
           2 [0; 1; 1; 0; 1; 0] first_read_fails eq_refl eq_refl).
Defined.

(** ** The service, built and serving *)

Lemma AGVServer_init_returns (url ev p : string) (w w1 : World) (self : AGVServer.t) :
  AGVServer.__init__ url ev p w = (Return self, w1) →
  self = {| AGVServer.sensor :=
              {| AGVGuideSensor.inst :=
                   Some {| port := p; address := 1; serial_baudrate := 115200 |} |};
            AGVServer.socketio_request_event_name := ev |}
  ∧ w1 = {| env := env w;
            trace := trace w ++
              [(MmInstrument p 1, None); (SetBaudrate p 115200, None);
               (SioClient, None); (SioConnect url, None); (SioOn ev, None)] |}.
Proof.
  init_cases w; try done. by intros [= <- <-].
Qed.

Ltac in_list :=
  solve [repeat (first [apply list_elem_of_here | apply list_elem_of_further])].

(** X12: the constructor of the service acquires in a fixed order and
    stops at the first failure: no call on the transport client is made
    unless the sensor handle was opened and its baud rate set, and the
    handler is registered only on a client that connected. *)
Theorem AGVServer_init_order (url ev p : string) (w : World) :
  ∃ delta,
    trace (AGVServer.__init__ url ev p w).2 = trace w ++ delta
    ∧ Forall (λ ent : entry,
                is_transport ent.1 →
                (MmInstrument p 1, None) ∈ delta
                ∧ (SetBaudrate p 115200, None) ∈ delta) delta
    ∧ Forall (λ ent : entry,
                ent.1 = SioOn ev → (SioConnect url, None) ∈ delta) delta.
Proof.
  init_cases w; eexists; (split; [reflexivity|]); split;
    repeat (first [apply Forall_nil_2 | apply Forall_cons_2]);
    simpl; try done; intros _; try split; in_list.
Qed.

Lemma AGVServer_init_order_witness :
  ∃ delta,
    trace (AGVServer.__init__ "http://localhost:8080" "AGVGuideSensor" "COM1"
             connect_refused).2 = delta
    ∧ Forall (λ ent : entry,
                is_transport ent.1 →
                (MmInstrument "COM1" 1, None) ∈ delta
                ∧ (SetBaudrate "COM1" 115200, None) ∈ delta) delta.
Proof.
  destruct (AGVServer_init_order "http://localhost:8080" "AGVGuideSensor" "COM1"
              connect_refused) as (delta & Htr & Hfirst & _).
  exists delta. split; [exact Htr|exact Hfirst].
Defined.

(** X13: a service returned by the constructor holds the serial port it
    was given open and the transport connected, and serves a request by
    reading register 0x28 of sub-address 1 on that port and, when the read
    returns, emitting the reading under the registered event name with
    "Response" appended. *)
Theorem AGVServer_serves_on_its_port (url ev p : string) (w w1 : World)
    (self : AGVServer.t) :
  AGVServer.__init__ url ev p w = (Return self, w1) →
  sio_connected (trace w1) = true
  ∧ p ∈ serial_open (trace w1)
  ∧ ∃ r,
      trace (AGVServer.sio_handler self w1).2
      = trace w1 ++
        (ReadRegister p 1 0x28, r) ::
        match r with
        | None =>
            [(SioEmit (ev +:+ "Response")
                      {[ "value" := registers (env w1) (trace w1) 0x28 ]},
              raises (env w1) (trace w1 ++ [(ReadRegister p 1 0x28, None)])
                (SioEmit (ev +:+ "Response")
                         {[ "value" := registers (env w1) (trace w1) 0x28 ]}))]
        | Some _ => []
        end.
Proof.
  intros [-> Hw1]%AGVServer_init_returns. split; [|split].
  - rewrite Hw1. unfold sio_connected. simpl. rewrite foldl_app. done.
  - rewrite Hw1. simpl. rewrite serial_open_app. simpl.
    apply elem_of_app. right. in_list.
  - clear Hw1. rewrite sio_handler_run.
    rewrite (value_run _ {| port := p; address := 1; serial_baudrate := 115200 |})
      by done.
    simpl. exists (raises (env w1) (trace w1) (ReadRegister p 1 0x28)).
    destruct (raises (env w1) (trace w1) (ReadRegister p 1 0x28)); simpl; [done|].
    unfold extcall. simpl.
    destruct (raises (env w1) _ _); simpl; by rewrite <- app_assoc.
Qed.

Lemma AGVServer_serves_on_its_port_witness :
  sio_connected
    (trace (AGVServer.__init__ "http://localhost:8080" "Guide" "COM7" ticking).2)
  = true
  ∧ "COM7" ∈ serial_open
      (trace (AGVServer.__init__ "http://localhost:8080" "Guide" "COM7" ticking).2).
Proof.
  destruct (AGVServer_serves_on_its_port "http://localhost:8080" "Guide" "COM7"
              ticking
              (AGVServer.__init__ "http://localhost:8080" "Guide" "COM7" ticking).2
              {| AGVServer.sensor :=
                   {| AGVGuideSensor.inst :=
                        Some {| port := "COM7"; address := 1;
                                serial_baudrate := 115200 |} |};
                 AGVServer.socketio_request_event_name := "Guide" |}
              eq_refl) as (Hconn & Hopen & _).
  split; [exact Hconn|exact Hopen].
Defined.

(** ** main, from enumeration to the run loop *)

Lemma main_run (w : World) :
  main w =
  match find_serial_port w with
  | (Return (p :: _), w1) =>
      match AGVServer.__init__ socketio_server_url socketio_request_event_name p w1 with
      | (Return _, w2) => extcall SioWait w2
      | (Raise e, w2) => (Raise e, w2)
      end
  | (Return [], w1) | (Raise IndexError, w1) =>
      (Raise (SystemExit (-1)),
       {| env := env w1;
          trace := trace w1 ++ [(StdoutWrite CRITICAL fatal_message, None)] |})
  | (Raise e, w1) => (Raise e, w1)
  end.
Proof.
  unfold main, try_except, mbind, M_bind.
  destruct (find_serial_port w) as [[[|p l]|e] w1]; simpl.
  - done.
  - by destruct (AGVServer.__init__ _ _ _ _) as [[srv|e] w2].
  - by destruct e.
Qed.

Lemma find_serial_port_frame (w : World) :
  env (find_serial_port w).2 = env w
  ∧ closes (trace (find_serial_port w).2) = closes (trace w)
  ∧ logged (trace (find_serial_port w).2) = logged (trace w)
  ∧ serial_open (trace (find_serial_port w).2) = serial_open (trace w).
Proof.
  rewrite find_serial_port_run. simpl.
  destruct (raises (env w) (trace w) Comports) as [e|]; simpl;
    unfold closes, logged; rewrite !omap_app, serial_open_app; simpl;
    by rewrite !app_nil_r.
Qed.

Lemma AGVServer_init_frame (url ev p : string) (w : World) :
  env (AGVServer.__init__ url ev p w).2 = env w
  ∧ closes (trace (AGVServer.__init__ url ev p w).2) = closes (trace w)
  ∧ logged (trace (AGVServer.__init__ url ev p w).2) = logged (trace w).
Proof.
  init_cases w; unfold closes, logged; rewrite !omap_app; simpl;
    by rewrite !app_nil_r.
Qed.

(** X14: when every call succeeds and the locator finds a candidate, [main]
    builds the service on the first candidate with the configured URL and
    event name, enters the run loop and returns when it ends; these seven
    calls, in this order, are all it does, and it logs nothing. *)
Theorem main_serves_first_candidate (w w1 : World) (p : string)
    (rest : list string) :
  (∀ h c, raises (env w) h c = None) →
  find_serial_port w = (Return (p :: rest), w1) →
  main w
  = (Return tt,
     {| env := env w;
        trace := trace w ++
          [(Comports, None); (MmInstrument p 1, None);
           (SetBaudrate p 115200, None); (SioClient, None);
           (SioConnect "http://localhost:8080", None);
           (SioOn "AGVGuideSensor", None); (SioWait, None)] |}).
Proof.
  intros Hok Hfind. rewrite main_run, Hfind.
  rewrite find_serial_port_run, Hok in Hfind. simpl in Hfind.
  injection Hfind as _ <-.
  rewrite AGVServer_init_run. simpl. rewrite !Hok.
  unfold extcall. simpl. rewrite Hok. by rewrite <- !app_assoc.
Qed.

Lemma main_serves_first_candidate_witness :
  main (quiet [("COM9", "Prolific"); ("COM4", "Silicon Labs CP210x");
               ("COM2", "Silicon Labs CP210x")] 0)
  = (Return tt,
     {| env := env (quiet [("COM9", "Prolific"); ("COM4", "Silicon Labs CP210x");
                           ("COM2", "Silicon Labs CP210x")] 0);
        trace := [(Comports, None); (MmInstrument "COM2" 1, None);
                  (SetBaudrate "COM2" 115200, None); (SioClient, None);
                  (SioConnect "http://localhost:8080", None);
                  (SioOn "AGVGuideSensor", None); (SioWait, None)] |}).
Proof.
  apply (main_serves_first_candidate
           (quiet [("COM9", "Prolific"); ("COM4", "Silicon Labs CP210x");
                   ("COM2", "Silicon Labs CP210x")] 0)
           (find_serial_port
              (quiet [("COM9", "Prolific"); ("COM4", "Silicon Labs CP210x");
                      ("COM2", "Silicon Labs CP210x")] 0)).2
           "COM2" ["COM4"]).
  - intros h c. reflexivity.
  - reflexivity.
Defined.

(** X15: when the construction of the service on the first candidate
    fails, [main] ends by that very exception (an IndexError included: the
    except clause of line 83 does not cover line 86); it does not try the
    other candidates, does not enter the run loop, logs nothing and closes
    nothing. *)
Theorem main_construction_error (w w1 w2 : World) (p : string)
    (rest : list string) (e : exn) :
  find_serial_port w = (Return (p :: rest), w1) →
  AGVServer.__init__ socketio_server_url socketio_request_event_name p w1
  = (Raise e, w2) →
  main w = (Raise e, w2)
  ∧ (∃ delta, trace w2 = trace w ++ (Comports, None) :: delta
              ∧ Forall (λ ent : entry, default_link p ent.1
                                       ∧ ent.1 ≠ SioWait) delta)
  ∧ logged (trace w2) = logged (trace w)
  ∧ closes (trace w2) = closes (trace w).
Proof.
  intros Hfind Hinit. rewrite main_run, Hfind, Hinit. split; [done|].
  destruct (find_serial_port_frame w) as (_ & Hc1 & Hl1 & _).
  destruct (AGVServer_init_frame socketio_server_url socketio_request_event_name
              p w1) as (_ & Hc2 & Hl2).
  rewrite Hfind in Hc1, Hl1. rewrite Hinit in Hc2, Hl2. simpl in *.
  split; [|by rewrite Hc2, Hl2].
  assert (trace w1 = trace w ++ [(Comports, None)]) as Ht1.
  { rewrite find_serial_port_run in Hfind. simpl in Hfind.
    destruct (raises (env w) (trace w) Comports); [done|].
    by injection Hfind as _ <-. }
  revert Hinit. clear -Ht1.
  init_cases w1; intros [= <- <-]; simpl; rewrite Ht1; eexists;
    (split; [by rewrite <- ?app_assoc|]); by repeat constructor.
Qed.

Lemma main_construction_error_witness :
  (main connect_refused).1 = Raise (LibraryError "ConnectionError")
  ∧ logged (trace (main connect_refused).2) = [].
Proof.
  destruct (main_construction_error connect_refused
              (find_serial_port connect_refused).2
              (main connect_refused).2 "COM1" []
              (LibraryError "ConnectionError") eq_refl eq_refl)
    as (Hmain & _ & Hlog & _).
  split; [by rewrite Hmain|].
  rewrite Hmain. exact Hlog.
Defined.

(** X16: [main] never closes the sensor handle: whatever happens, it makes
    no call to close, and when it returns (the run loop has ended) the
    serial port of the service is still open. *)
Theorem main_never_closes (w : World) :
  closes (trace (main w).2) = closes (trace w)
  ∧ ((main w).1 = Return tt →
     ∃ p, head (sorted (candidates (comports (env w) (trace w)))) = Some p
          ∧ p ∈ serial_open (trace (main w).2)).
Proof.
  rewrite main_run.
  destruct (find_serial_port_frame w) as (_ & Hc & _ & _).
  pose proof (find_serial_port_run w) as Hrun. simpl in Hrun.
  destruct (find_serial_port w) as [[[|p l]|e] w1]; simpl in *.
  - split; [|done]. unfold closes in *. rewrite omap_app. simpl.
    by rewrite app_nil_r.
  - destruct (AGVServer_init_frame socketio_server_url
                socketio_request_event_name p w1) as (_ & Hc2 & _).
    destruct (AGVServer.__init__ _ _ _ _) as [[srv|e] w2] eqn:Hinit;
      simpl in *; [|by rewrite Hc2].
    unfold extcall.
    destruct (raises (env w2) (trace w2) SioWait); simpl;
      (split; [unfold closes in *; rewrite omap_app; simpl;
               by rewrite app_nil_r, Hc2|]); [done|].
    intros _. exists p. split.
    + destruct (raises (env w) (trace w) Comports); [done|].
      injection Hrun as Hs _. by rewrite <- Hs.
    + apply AGVServer_init_returns in Hinit as [_ ->]. simpl.
      rewrite <- app_assoc, serial_open_app. simpl.
      apply elem_of_app. right. in_list.
  - destruct e; simpl; try (by split);
      (split; [|done]); unfold closes in *; rewrite omap_app; simpl;
      by rewrite app_nil_r.
Qed.

Lemma main_never_closes_witness :
  ∃ p, p ∈ serial_open (trace (main ticking).2).
Proof.
  destruct (proj2 (main_never_closes ticking) eq_refl) as (p & _ & Hp).
  exists p. exact Hp.
Defined.

(** X17: the only line the program ever logs is the fatal message, and it
    logs it exactly when taking the first candidate raised IndexError (the
    locator returned an empty list, or raised IndexError itself).  The
    INFO messages of lines 48 and 87 are below the effective level of the
    logger and are never written. *)
Theorem main_logs_only_fatal (w : World) :
  logged (trace (main w).2)
  = logged (trace w) ++
    match (find_serial_port w).1 with
    | Return [] | Raise IndexError => [(CRITICAL, fatal_message)]
    | _ => []
    end.
Proof.
  rewrite main_run.
  destruct (find_serial_port_frame w) as (_ & _ & Hl & _).
  destruct (find_serial_port w) as [[[|p l]|e] w1]; simpl in *.
  - unfold logged in *. rewrite omap_app. simpl. by rewrite Hl.
  - destruct (AGVServer_init_frame socketio_server_url
                socketio_request_event_name p w1) as (_ & _ & Hl2).
    destruct (AGVServer.__init__ _ _ _ _) as [[srv|e] w2]; simpl in *.
    + unfold extcall. destruct (raises (env w2) (trace w2) SioWait); simpl;
        unfold logged in *; rewrite omap_app; simpl;
        by rewrite !app_nil_r, Hl2, Hl.
    + by rewrite app_nil_r, Hl2, Hl.
  - destruct e; simpl; rewrite ?app_nil_r; try done.
    unfold logged in *. rewrite omap_app. simpl. by rewrite Hl.
Qed.

(** X18: an error of the enumeration itself ends [main] before anything is
    built.  An IndexError is taken for a missing candidate (the try of
    lines 81-82 covers the call of the locator): the fatal message is
    logged and the process exits with -1.  Any other error leaves [main]
    as it is, unlogged. *)
Theorem main_enumeration_error (w : World) (e : exn) :
  raises (env w) (trace w) Comports = Some e →
  main w
  = match e with
    | IndexError =>
        (Raise (SystemExit (-1)),
         {| env := env w;
            trace := trace w ++ [(Comports, Some IndexError);
                                 (StdoutWrite CRITICAL fatal_message, None)] |})
    | _ => (Raise e, {| env := env w; trace := trace w ++ [(Comports, Some e)] |})
    end.
Proof.
  intros Hr. rewrite main_run, find_serial_port_run, Hr. simpl.
  destruct e; try done. simpl. by rewrite <- app_assoc.
Qed.

Lemma main_enumeration_error_witness :
  (main {| env := {| raises := λ _ _, Some IndexError;
                     comports := λ _, [("COM1", "Silicon Labs CP210x")];
                     registers := λ _ _, 0%Z |};
           trace := [] |}).1
  = Raise (SystemExit (-1)).
Proof.
  by rewrite (main_enumeration_error
                {| env := {| raises := λ _ _, Some IndexError;
                             comports := λ _, [("COM1", "Silicon Labs CP210x")];
                             registers := λ _ _, 0%Z |};
                   trace := [] |} IndexError eq_refl).
Defined.
